(** * ImageMaker: a shallow embedding of [Modules/CLI/ImageMaker/ImageMaker.cxx]

    The command line module builds a blank image of a run-time selected pixel
    type, attaches its geometry, fills it with one pixel value and hands it to
    an ITK file writer.  The development follows the source function by
    function: [main], [DoIt<D>] (here [DoIt_D]) and
    [DoIt<OutputImageType, OutputScalarType>] (here [DoIt_image]).

    What the source takes from elsewhere is kept apart:
    - the parsed command line ([PARSE_ARGS], generated header) is the record
      [Args];
    - the ITK library is the record [Itk]: the tag table of
      [GetComponentTypeFromString], the exceptions its calls raise, the content
      of freshly allocated memory and the file writer;
    - the numeric types of C++ ([double], the element type of [FillValue], the
      output scalar) and the conversion between them are parameters of the
      development; the module [Sample] gives an instance to run. *)

From Stdlib Require Import QArith.
From stdpp Require Import base numbers list strings gmap.

(** ** Process exit codes ([<cstdlib>]) *)

Definition EXIT_SUCCESS : Z := 0.
Definition EXIT_FAILURE : Z := 1.

(** ** Pixel types *)

(** [itk::ImageIOBase::IOComponentType], the values the switch of [DoIt<D>]
    names. *)
Inductive IOComponentType :=
  | UNKNOWNCOMPONENTTYPE
  | UCHAR | CHAR | USHORT | SHORT | UINT | INT | ULONG | LONG
  | FLOAT | DOUBLE.

Global Instance IOComponentType_eq_dec : EqDecision IOComponentType.
Proof. solve_decision. Defined.

(** The two class templates the source instantiates: [itk::Image<T, D>] and
    [itk::VectorImage<T, D>]. *)
Inductive ImageClass := itk_Image | itk_VectorImage.

Global Instance ImageClass_eq_dec : EqDecision ImageClass.
Proof. solve_decision. Defined.

(** An instantiated [OutputImageType]. *)
Record ImageType := {
  image_class : ImageClass;
  PixelScalar : IOComponentType;
  ImageDimension : nat
}.

Global Instance ImageType_eq_dec : EqDecision ImageType.
Proof. solve_decision. Defined.

Definition Image_of (T : IOComponentType) (D : nat) : ImageType :=
  {| image_class := itk_Image; PixelScalar := T; ImageDimension := D |}.

Definition VectorImage_of (T : IOComponentType) (D : nat) : ImageType :=
  {| image_class := itk_VectorImage; PixelScalar := T; ImageDimension := D |}.

(** ** The process: streams, files, exceptions *)

(** [itk::ExceptionObject], as far as [main] prints it. *)
Record ExceptionObject := { GetDescription : string }.

(** The content of a file is a sequence of bytes. *)
Definition File : Type := list Byte.byte.

(** What a run can change: the lines sent to [std::cout] and [std::cerr] and
    the files on disk. *)
Record World := {
  cout : list string;
  cerr : list string;
  files : gmap string File
}.

Definition to_cout (line : string) (w : World) : World :=
  {| cout := cout w ++ [line]; cerr := cerr w; files := files w |}.

Definition to_cerr (line : string) (w : World) : World :=
  {| cout := cout w; cerr := cerr w ++ [line]; files := files w |}.

Definition store_file (path : string) (f : File) (w : World) : World :=
  {| cout := cout w; cerr := cerr w; files := <[path := f]> (files w) |}.

(** A C++ computation returns, leaves by an [itk::ExceptionObject] (the
    exceptions of ITK, the only ones [main] catches), or has no defined
    behaviour (an access out of range, a remainder by zero). *)
Inductive Outcome (A : Type) :=
  | Normal (a : A) (w : World)
  | Raised (e : ExceptionObject) (w : World)
  | Undefined.
Arguments Normal {A} a w.
Arguments Raised {A} e w.
Arguments Undefined {A}.

Definition M (A : Type) : Type := World → Outcome A.

Global Instance M_ret : MRet M := λ A a w, Normal a w.

Global Instance M_bind : MBind M := λ A B k m w,
  match m w with
  | Normal a w' => k a w'
  | Raised e w' => Raised e w'
  | Undefined => Undefined
  end.

(** [None] stands for an operation C++ leaves undefined. *)
Definition defined {A} (o : option A) : M A := λ w,
  match o with
  | Some a => Normal a w
  | None => Undefined
  end.

(** [try { body } catch (itk::ExceptionObject & excep) { handler }] *)
Definition try_catch {A} (body : M A) (handler : ExceptionObject → M A) : M A :=
  λ w, match body w with
       | Raised excep w' => handler excep w'
       | o => o
       end.

Definition print_cout (line : string) : M unit := λ w, Normal () (to_cout line w).
Definition print_cerr (line : string) : M unit := λ w, Normal () (to_cerr line w).

(** A computation that neither reads nor changes the streams and the
    files: started in another world it does the same and leaves that world as
    it is. *)
Definition world_free {A} (m : M A) : Prop :=
  ∀ w1 w2,
    m w2 = match m w1 with
           | Normal a _ => Normal a w2
           | Raised e _ => Raised e w2
           | Undefined => Undefined
           end.

(** A computation that leaves by no exception. *)
Definition never_raises {A} (m : M A) : Prop := ∀ w e w', m w ≠ Raised e w'.

(** ** Loops and arrays *)

(** [for (i = 0; i < n; ++i) body], on a state [St]; an iteration without
    defined behaviour ends the loop with [None]. *)
Fixpoint for_loop {St : Type} (n : nat) (body : nat → St → option St) (s : St)
  : option St :=
  match n with
  | O => Some s
  | S m => s' ← for_loop m body s; body m s'
  end.

(** [for (i = 0; i < n; ++i) out[i] = f(i)], the array [out] being new. *)
Definition tabulate {A : Type} (n : nat) (f : nat → option A) : option (list A) :=
  for_loop n (λ i out, x ← f i; Some (out ++ [x])) [].

(** [p[i] = x] through a pointer [p] into an array of [length a] elements. *)
Definition store {A : Type} (a : list A) (i : nat) (x : A) : option (list A) :=
  if decide (i < length a) then Some (<[i := x]> a) else None.

(** [size[i] = Size[i]]: conversion of an [int] to [SizeValueType]
    ([unsigned long], 64 bits). *)
Definition SizeValueType_bits : Z := 64.
Definition to_SizeValueType (z : Z) : Z := z `mod` 2 ^ SizeValueType_bits.

(** ** Image regions *)

Record ImageRegion := {
  region_Size : list Z;
  region_Index : list Z
}.

(** [SizeValueType numPixels = 1; for (...) numPixels *= size[i];]: the
    extents are multiplied in a [SizeValueType], which wraps. *)
Definition count_pixels (size : list Z) : Z :=
  foldl (λ numPixels n, to_SizeValueType (numPixels * n)) 1%Z size.

(** [ImageRegion::GetNumberOfPixels] *)
Definition GetNumberOfPixels (region : ImageRegion) : Z :=
  count_pixels (region_Size region).

(** [ImageBase::ComputeOffset]: the offset of index [ind] in a buffer whose
    region starts at [start], the first axis running fastest. *)
Fixpoint ComputeOffset (ind start size : list Z) : Z :=
  match ind, start, size with
  | i :: ind', s :: start', n :: size' =>
      ((i - s) + n * ComputeOffset ind' start' size')%Z
  | _, _, _ => 0%Z
  end.

(** ** The program *)

Section ImageMaker.

(** [double]; the element type of the vector [FillValue]; the scalars of the
    pixel buffer.  [zero] and [one] are the [double] values 0.0 and 1.0 of the
    geometry of a new image.  [convert T v] is the implicit conversion of the
    fill value [v] to the output scalar type [T]. *)
Context {Real FillScalar Scalar : Type}.
Context (zero one : Real).
Context (convert : IOComponentType → FillScalar → Scalar).

(** *** The parsed command line

    The variables [PARSE_ARGS] declares (the generated header is not part of
    the sources), under the names the source uses, and [argv[0]]. *)
Record Args := {
  argv0 : string;
  Dimension : Z;
  NumberOfComponents : Z;
  ScalarType : string;
  Size : list Z;
  Spacing : list Real;
  Origin : list Real;
  Direction : list Real;
  FillValue : list FillScalar;
  OutputVolume : string
}.

(** *** ITK images *)

Record Image := {
  image_type : ImageType;
  m_VectorLength : nat;
  m_Region : ImageRegion;
  m_Spacing : list Real;
  m_Origin : list Real;
  m_Direction : list (list Real);
  m_Buffer : list Scalar
}.

(** [OutputImageType::New()]: an empty region at index zero, unit spacing,
    zero origin, identity direction and no buffer.  An [itk::Image] of scalars
    has one component per pixel.  The length of a new [itk::VectorImage] is 0
    until it is set; [DoIt<D>] selects that class only when the number of
    components exceeds one, and then the length is set before any use. *)
Definition New (OutputImageType : ImageType) : Image :=
  let D := ImageDimension OutputImageType in
  {| image_type := OutputImageType;
     m_VectorLength :=
       match image_class OutputImageType with
       | itk_Image => 1
       | itk_VectorImage => 0
       end;
     m_Region := {| region_Size := replicate D 0%Z;
                    region_Index := replicate D 0%Z |};
     m_Spacing := replicate D one;
     m_Origin := replicate D zero;
     m_Direction :=
       (λ r, (λ c, if decide (r = c) then one else zero) <$> seq 0 D)
         <$> seq 0 D;
     m_Buffer := [] |}.

Definition GetNumberOfComponentsPerPixel (image : Image) : nat :=
  m_VectorLength image.

(** On an [itk::Image] the call is the empty method of [itk::ImageBase]. *)
Definition SetNumberOfComponentsPerPixel (n : Z) (image : Image) : Image :=
  match image_class (image_type image) with
  | itk_Image => image
  | itk_VectorImage =>
      {| image_type := image_type image;
         m_VectorLength := Z.to_nat n;
         m_Region := m_Region image;
         m_Spacing := m_Spacing image;
         m_Origin := m_Origin image;
         m_Direction := m_Direction image;
         m_Buffer := m_Buffer image |}
  end.

Definition SetRegions (region : ImageRegion) (image : Image) : Image :=
  {| image_type := image_type image;
     m_VectorLength := m_VectorLength image;
     m_Region := region;
     m_Spacing := m_Spacing image;
     m_Origin := m_Origin image;
     m_Direction := m_Direction image;
     m_Buffer := m_Buffer image |}.

Definition with_Spacing (spacing : list Real) (image : Image) : Image :=
  {| image_type := image_type image;
     m_VectorLength := m_VectorLength image;
     m_Region := m_Region image;
     m_Spacing := spacing;
     m_Origin := m_Origin image;
     m_Direction := m_Direction image;
     m_Buffer := m_Buffer image |}.

Definition with_Origin (origin : list Real) (image : Image) : Image :=
  {| image_type := image_type image;
     m_VectorLength := m_VectorLength image;
     m_Region := m_Region image;
     m_Spacing := m_Spacing image;
     m_Origin := origin;
     m_Direction := m_Direction image;
     m_Buffer := m_Buffer image |}.

Definition with_Direction (direction : list (list Real)) (image : Image) : Image :=
  {| image_type := image_type image;
     m_VectorLength := m_VectorLength image;
     m_Region := m_Region image;
     m_Spacing := m_Spacing image;
     m_Origin := m_Origin image;
     m_Direction := direction;
     m_Buffer := m_Buffer image |}.

Definition with_Buffer (buffer : list Scalar) (image : Image) : Image :=
  {| image_type := image_type image;
     m_VectorLength := m_VectorLength image;
     m_Region := m_Region image;
     m_Spacing := m_Spacing image;
     m_Origin := m_Origin image;
     m_Direction := m_Direction image;
     m_Buffer := buffer |}.

(** The number of scalars [Allocate] reserves: pixels times components,
    multiplied in 64 bits as the pixels are, so that a region of 2^64 scalars
    reserves none. *)
Definition buffer_size (image : Image) : nat :=
  Z.to_nat (to_SizeValueType
              (GetNumberOfPixels (m_Region image)
               * Z.of_nat (m_VectorLength image))).

(** *** The ITK library

    The library calls of the source that may leave by an exception, with the
    arguments the source passes. *)
Inductive ItkCall :=
  | call_Allocate (scalars : nat)
  | call_SetSpacing (spacing : list Real)
  | call_SetOrigin (origin : list Real)
  | call_SetDirection (direction : list (list Real)).

(** What [writer->Update()] does: the file it writes, or the exception it
    raises, after which a partial file may be left behind. *)
Inductive WriteResult :=
  | Written (f : File)
  | Failed (e : ExceptionObject) (partial : option File).

Record Itk := {
  (** [itk::ImageIOBase::GetComponentTypeFromString] *)
  GetComponentTypeFromString : string → IOComponentType;
  (** the exception a library call raises, if any *)
  raises : ItkCall → option ExceptionObject;
  (** the scalar found at each offset of memory that [Allocate] reserves and
      does not initialise *)
  uninitialised : nat → Scalar;
  (** the lines the [itk::PluginFilterWatcher] reports on [std::cout] while
      the writer runs *)
  watcher_report : Image → string → list string;
  (** [itk::ImageFileWriter::Update] on an image and a file name *)
  writer_Update : Image → string → WriteResult
}.

Context (itk : Itk).

Definition itk_call (c : ItkCall) : M unit := λ w,
  match raises itk c with
  | Some e => Raised e w
  | None => Normal () w
  end.

Definition Allocate (image : Image) : M Image :=
  itk_call (call_Allocate (buffer_size image));;
  mret (with_Buffer (uninitialised itk <$> seq 0 (buffer_size image)) image).

Definition SetSpacing (spacing : list Real) (image : Image) : M Image :=
  itk_call (call_SetSpacing spacing);; mret (with_Spacing spacing image).

Definition SetOrigin (origin : list Real) (image : Image) : M Image :=
  itk_call (call_SetOrigin origin);; mret (with_Origin origin image).

Definition SetDirection (direction : list (list Real)) (image : Image) : M Image :=
  itk_call (call_SetDirection direction);; mret (with_Direction direction image).

(** *** [DoIt<OutputImageType, OutputScalarType>]

    The body of the function, cut at its blank lines.  [PARSE_ARGS] at its
    head parses the command line that [main] has parsed already, so it
    declares the same [args]. *)

(** Lines 150-170: the image, its number of components, its region and its
    buffer. *)
Definition allocate_image (OutputImageType : ImageType) (args : Args) : M Image :=
  let image := New OutputImageType in
  let image :=
    if decide (1 < NumberOfComponents args)%Z
    then SetNumberOfComponentsPerPixel (NumberOfComponents args) image
    else image in
  size ← defined (tabulate (ImageDimension OutputImageType)
                    (λ i, to_SizeValueType <$> Size args !! i));
  let start := replicate (ImageDimension OutputImageType) 0%Z in
  let region := {| region_Size := size; region_Index := start |} in
  let image := SetRegions region image in
  Allocate image.

(** Lines 172-194: spacing, origin and direction. *)
Definition set_geometry (args : Args) (image : Image) : M Image :=
  let D := ImageDimension (image_type image) in
  spacing ← defined (tabulate D (λ i, Spacing args !! i));
  image ← SetSpacing spacing image;
  origin ← defined (tabulate D (λ i, Origin args !! i));
  image ← SetOrigin origin image;
  direction ← defined
    (tabulate D (λ r, tabulate D (λ c, Direction args !! (r * D + c))));
  SetDirection direction image.

(** [FillValue[c % FillValue.size()]]: the remainder by zero is undefined. *)
Definition FillValue_at (FillValue : list FillScalar) (c : nat) : option FillScalar :=
  if decide (length FillValue = 0) then None
  else FillValue !! (c mod length FillValue).

(** Lines 197-201: the loop that writes the components of the first pixel
    through [pixel = image->GetBufferPointer()]. *)
Definition set_first_pixel (OutputScalarType : IOComponentType)
    (FillValue : list FillScalar) (components : nat) (pixel : list Scalar)
  : option (list Scalar) :=
  for_loop components
    (λ c pixel,
       v ← FillValue_at FillValue c;
       store pixel c (convert OutputScalarType v))
    pixel.

(** [image->GetPixel(index)] gives no copy: for an [itk::Image] it is a
    reference to a scalar of the buffer, for an [itk::VectorImage] a vector
    that points into the buffer.  It is modelled by the offset of its first
    scalar; an index before the start of the region points nowhere. *)
Definition GetPixel (image : Image) (index : list Z) : option nat :=
  let region := m_Region image in
  let offset := ComputeOffset index (region_Index region) (region_Size region) in
  if decide (0 ≤ offset)%Z
  then Some (m_VectorLength image * Z.to_nat offset)
  else None.

(** [image->FillBuffer(value)]: every pixel of the buffered region receives
    the components of [value], which are read from the buffer as the loop
    runs. *)
Definition FillBuffer (image : Image) (value : nat) : option (list Scalar) :=
  let L := m_VectorLength image in
  for_loop (Z.to_nat (GetNumberOfPixels (m_Region image)))
    (λ i buffer,
       for_loop L
         (λ j buffer, x ← buffer !! (value + j); store buffer (i * L + j) x)
         buffer)
    (m_Buffer image).

(** Lines 196-207: the first pixel, then the whole buffer. *)
Definition fill_image (OutputScalarType : IOComponentType) (args : Args)
    (image : Image) : M Image :=
  pixel ← defined
    (set_first_pixel OutputScalarType (FillValue args)
       (GetNumberOfComponentsPerPixel image) (m_Buffer image));
  let image := with_Buffer pixel image in
  let firstIndex := replicate (ImageDimension (image_type image)) 0%Z in
  value ← defined (GetPixel image firstIndex);
  buffer ← defined (FillBuffer image value);
  mret (with_Buffer buffer image).

(** Lines 150-207: the image that is handed to the writer. *)
Definition build_image (OutputImageType : ImageType)
    (OutputScalarType : IOComponentType) (args : Args) : M Image :=
  image ← allocate_image OutputImageType args;
  image ← set_geometry args image;
  fill_image OutputScalarType args image.

(** Lines 209-216: the writer, watched, is run on the image. *)
Definition write_image (args : Args) (image : Image) : M unit := λ w,
  let w := {| cout := cout w ++ watcher_report itk image (OutputVolume args);
              cerr := cerr w; files := files w |} in
  match writer_Update itk image (OutputVolume args) with
  | Written f => Normal () (store_file (OutputVolume args) f w)
  | Failed e None => Raised e w
  | Failed e (Some f) => Raised e (store_file (OutputVolume args) f w)
  end.

Definition DoIt_image (OutputImageType : ImageType)
    (OutputScalarType : IOComponentType) (args : Args) : M Z :=
  image ← build_image OutputImageType OutputScalarType args;
  write_image args image;;
  mret EXIT_SUCCESS.

(** *** [DoIt<D>] *)

Definition DoIt_D (D : nat) (args : Args) (numberOfComponents : Z)
    (scalarType : string) : M Z :=
  let isVector := bool_decide (1 < numberOfComponents)%Z in
  match GetComponentTypeFromString itk scalarType with
  | UCHAR =>
      if isVector then DoIt_image (VectorImage_of UCHAR D) UCHAR args
      else DoIt_image (Image_of UCHAR D) UCHAR args
  | CHAR =>
      if isVector then DoIt_image (VectorImage_of CHAR D) CHAR args
      else DoIt_image (Image_of CHAR D) CHAR args
  | USHORT =>
      if isVector then DoIt_image (VectorImage_of USHORT D) USHORT args
      else DoIt_image (Image_of USHORT D) USHORT args
  | SHORT =>
      if isVector then DoIt_image (VectorImage_of SHORT D) SHORT args
      else DoIt_image (Image_of SHORT D) SHORT args
  | UINT =>
      if isVector then DoIt_image (VectorImage_of UINT D) UINT args
      else DoIt_image (Image_of UINT D) UINT args
  | INT =>
      if isVector then DoIt_image (VectorImage_of INT D) INT args
      else DoIt_image (Image_of INT D) INT args
  | ULONG =>
      if isVector then DoIt_image (VectorImage_of ULONG D) ULONG args
      else DoIt_image (Image_of ULONG D) ULONG args
  | LONG =>
      if isVector then DoIt_image (VectorImage_of LONG D) LONG args
      else DoIt_image (Image_of LONG D) LONG args
  | FLOAT =>
      if isVector then DoIt_image (VectorImage_of FLOAT D) FLOAT args
      else DoIt_image (Image_of FLOAT D) FLOAT args
  | DOUBLE =>
      if isVector then DoIt_image (VectorImage_of DOUBLE D) DOUBLE args
      else DoIt_image (Image_of DOUBLE D) DOUBLE args
  | UNKNOWNCOMPONENTTYPE =>
      print_cout "unknown component type";;
      mret EXIT_FAILURE
  end.

(** *** [main]

    [args] is what [PARSE_ARGS] has parsed. *)

(** The [switch] inside the [try] block. *)
Definition main_switch (args : Args) : M Z :=
  match Dimension args with
  | 1%Z => DoIt_D 1 args (NumberOfComponents args) (ScalarType args)
  | 2%Z => DoIt_D 2 args (NumberOfComponents args) (ScalarType args)
  | _ => DoIt_D 3 args (NumberOfComponents args) (ScalarType args)
  end.

Definition main (args : Args) : M Z :=
  try_catch (main_switch args)
    (λ excep,
       print_cerr (argv0 args +:+ ": exception caught !");;
       print_cerr (GetDescription excep);;
       mret EXIT_FAILURE).

End ImageMaker.

Arguments Args : clear implicits.
Arguments Image : clear implicits.
Arguments ItkCall : clear implicits.
Arguments Itk : clear implicits.

(** ** Specification vocabulary *)

Section Specification.

Context {Real FillScalar Scalar : Type}.

(** The conditions on the parameters that decide the pixels of a run of
    dimension [D]: a dimension among 1, 2 and 3, at least one component, a
    scalar type the library knows and at least one fill value. *)
Record valid_pixel_parameters (itk : Itk Real Scalar)
    (args : Args Real FillScalar) (D : nat) : Prop := {
  valid_Dimension : Dimension args = Z.of_nat D ∧ 1 ≤ D ≤ 3;
  valid_NumberOfComponents : (1 ≤ NumberOfComponents args)%Z;
  valid_ScalarType :
    GetComponentTypeFromString itk (ScalarType args) ≠ UNKNOWNCOMPONENTTYPE;
  valid_FillValue : 1 ≤ length (FillValue args)
}.

(** The parameter set of a run of dimension [D], as the specification
    describes a valid one: the conditions above, one non-negative extent, one
    spacing and one origin coordinate per axis and a [D] by [D] direction
    matrix. *)
Record valid_configuration (itk : Itk Real Scalar) (args : Args Real FillScalar)
    (D : nat) : Prop := {
  valid_pixel : valid_pixel_parameters itk args D;
  valid_Size :
    length (Size args) = D ∧
    Forall (λ n, (0 ≤ n < 2 ^ SizeValueType_bits)%Z) (Size args);
  valid_Spacing : length (Spacing args) = D;
  valid_Origin : length (Origin args) = D;
  valid_Direction : length (Direction args) = D * D
}.

(** The product of the extents. *)
Definition product (size : list Z) : Z := foldr Z.mul 1%Z size.

(** The scalar type and the image type that [DoIt<D>] instantiates
    [DoIt<OutputImageType, OutputScalarType>] with. *)
Definition OutputScalarType_of (itk : Itk Real Scalar) (args : Args Real FillScalar)
  : IOComponentType :=
  GetComponentTypeFromString itk (ScalarType args).

Definition OutputImageType_of (itk : Itk Real Scalar) (args : Args Real FillScalar)
    (D : nat) : ImageType :=
  if bool_decide (1 < NumberOfComponents args)%Z
  then VectorImage_of (OutputScalarType_of itk args) D
  else Image_of (OutputScalarType_of itk args) D.

(** The template argument [D] that the [switch] of [main] selects. *)
Definition ImageDimension_of (args : Args Real FillScalar) : nat :=
  if decide (Dimension args = 1%Z) then 1
  else if decide (Dimension args = 2%Z) then 2 else 3.



(** The same library on a machine whose free memory holds [garbage]. *)
Definition with_uninitialised (garbage : nat → Scalar) (itk : Itk Real Scalar)
  : Itk Real Scalar :=
  {| GetComponentTypeFromString := GetComponentTypeFromString itk;
     raises := raises itk;
     uninitialised := garbage;
     watcher_report := watcher_report itk;
     writer_Update := writer_Update itk |}.

(** No library call raises. *)
Definition quiet (itk : Itk Real Scalar) : Prop := ∀ c, raises itk c = None.

(** Entry [r][c] of a matrix held as a list of rows. *)
Definition entry {A : Type} (m : list (list A)) (r c : nat) : option A :=
  row ← m !! r; row !! c.

(** The number of components per pixel that the image type and the command
    line give an image. *)
Definition components_of (OutputImageType : ImageType)
    (args : Args Real FillScalar) : nat :=
  match image_class OutputImageType with
  | itk_Image => 1
  | itk_VectorImage =>
      if decide (1 < NumberOfComponents args)%Z
      then Z.to_nat (NumberOfComponents args) else 0
  end.

(** An image whose buffer is the one [Allocate] reserved for a region that
    starts at index zero. *)
Definition allocated (image : Image Real Scalar) : Prop :=
  length (m_Buffer image) = buffer_size image ∧
  region_Index (m_Region image)
  = replicate (ImageDimension (image_type image)) 0%Z.

(** The same command line with other fill values. *)
Definition set_FillValue (fv : list FillScalar) (args : Args Real FillScalar)
  : Args Real FillScalar :=
  {| argv0 := argv0 args; Dimension := Dimension args;
     NumberOfComponents := NumberOfComponents args;
     ScalarType := ScalarType args; Size := Size args;
     Spacing := Spacing args; Origin := Origin args;
     Direction := Direction args; FillValue := fv;
     OutputVolume := OutputVolume args |}.

(** The 64-bit count of the pixels of the region of a run of dimension
    [D]. *)
Definition pixels_of (D : nat) (args : Args Real FillScalar) : Z :=
  count_pixels (to_SizeValueType <$> take D (Size args)).

(** The number of scalars that [Allocate] is asked for. *)
Definition scalars_of (OutputImageType : ImageType)
    (args : Args Real FillScalar) : nat :=
  Z.to_nat (to_SizeValueType
              (pixels_of (ImageDimension OutputImageType) args
               * Z.of_nat (components_of OutputImageType args))).

(** The library raises at none of the four calls the builder makes, with the
    arguments it makes them with. *)
Definition library_accepts (itk : Itk Real Scalar)
    (OutputImageType : ImageType) (args : Args Real FillScalar) : Prop :=
  let D := ImageDimension OutputImageType in
  raises itk (call_Allocate (scalars_of OutputImageType args)) = None ∧
  raises itk (call_SetSpacing (take D (Spacing args))) = None ∧
  raises itk (call_SetOrigin (take D (Origin args))) = None ∧
  ∀ direction,
    tabulate D (λ r, tabulate D (λ c, Direction args !! (r * D + c)))
    = Some direction →
    raises itk (call_SetDirection direction) = None.

(** Everything a run of dimension [D] with [L] components per pixel reads
    and writes is there: [D] extents, spacings and origin coordinates,
    [D * D] direction entries, a fill value, a region that has a pixel, and a
    number of scalars that fits the 64-bit count, so that the buffer holds
    them all. *)
Definition well_sized (args : Args Real FillScalar) (D L : nat) : Prop :=
  D ≤ length (Size args) ∧ D ≤ length (Spacing args) ∧
  D ≤ length (Origin args) ∧ D * D ≤ length (Direction args) ∧
  1 ≤ length (FillValue args) ∧
  (0 < pixels_of D args)%Z ∧
  (pixels_of D args * Z.of_nat L < 2 ^ SizeValueType_bits)%Z.

(** Two command lines that differ at most in the entries of the vectors
    beyond the first [D] ([D * D] for the direction). *)
Definition same_input (D : nat) (args args' : Args Real FillScalar) : Prop :=
  argv0 args = argv0 args' ∧ Dimension args = Dimension args' ∧
  NumberOfComponents args = NumberOfComponents args' ∧
  ScalarType args = ScalarType args' ∧
  OutputVolume args = OutputVolume args' ∧
  FillValue args = FillValue args' ∧
  take D (Size args) = take D (Size args') ∧
  take D (Spacing args) = take D (Spacing args') ∧
  take D (Origin args) = take D (Origin args') ∧
  take (D * D) (Direction args) = take (D * D) (Direction args').

End Specification.

(** ** An instance for the examples

    Integer fill values on an LP64 machine, rational geometry, a library that
    never raises and a writer that dumps the low byte of every scalar. *)

Module Sample.

(** Modelled from the spec: the ten scalar type tags of its data model, for
    [itk::ImageIOBase::GetComponentTypeFromString], which the sources only
    call. *)
Definition component_type_of_tag (tag : string) : IOComponentType :=
  if String.eqb tag "uchar" then UCHAR
  else if String.eqb tag "char" then CHAR
  else if String.eqb tag "ushort" then USHORT
  else if String.eqb tag "short" then SHORT
  else if String.eqb tag "uint" then UINT
  else if String.eqb tag "int" then INT
  else if String.eqb tag "ulong" then ULONG
  else if String.eqb tag "long" then LONG
  else if String.eqb tag "float" then FLOAT
  else if String.eqb tag "double" then DOUBLE
  else UNKNOWNCOMPONENTTYPE.

Definition wrap_unsigned (bits z : Z) : Z := z `mod` 2 ^ bits.

Definition wrap_signed (bits z : Z) : Z :=
  (z + 2 ^ (bits - 1)) `mod` 2 ^ bits - 2 ^ (bits - 1).

(** Conversion of an integer fill value to the output scalar type.  The
    integer types wrap; [float] and [double] hold an integer of the examples
    (all below 2^24) exactly. *)
Definition convert (T : IOComponentType) (v : Z) : Z :=
  match T with
  | UCHAR => wrap_unsigned 8 v
  | CHAR => wrap_signed 8 v
  | USHORT => wrap_unsigned 16 v
  | SHORT => wrap_signed 16 v
  | UINT => wrap_unsigned 32 v
  | INT => wrap_signed 32 v
  | ULONG => wrap_unsigned 64 v
  | LONG => wrap_signed 64 v
  | FLOAT | DOUBLE | UNKNOWNCOMPONENTTYPE => v
  end.

Definition low_byte (z : Z) : Byte.byte :=
  default Byte.x00 (Byte.of_N (Z.to_N (z `mod` 256))).

Definition itk : Itk Q Z :=
  {| GetComponentTypeFromString := component_type_of_tag;
     raises := λ _, None;
     uninitialised := λ i, (Z.of_nat i + 42)%Z;
     watcher_report := λ _ _, [];
     writer_Update := λ image _, Written (low_byte <$> m_Buffer image) |}.

(** A writer whose codec refuses the file. *)
Definition itk_refusing : Itk Q Z :=
  {| GetComponentTypeFromString := component_type_of_tag;
     raises := λ _, None;
     uninitialised := λ i, (Z.of_nat i + 42)%Z;
     watcher_report := λ _ _, [];
     writer_Update := λ _ _,
       Failed {| GetDescription := "no ImageIO for this file name" |} None |}.

Definition identity3 : list Q := [1; 0; 0; 0; 1; 0; 0; 0; 1]%Q.

(** dimension 3, uchar, one component, 10 x 10 x 10, fill value 255 *)
Definition args_uchar : Args Q Z :=
  {| argv0 := "ImageMaker"; Dimension := 3; NumberOfComponents := 1;
     ScalarType := "uchar"; Size := [10; 10; 10]%Z;
     Spacing := [1; 1; 1]%Q; Origin := [0; 0; 0]%Q; Direction := identity3;
     FillValue := [255]%Z; OutputVolume := "out.mha" |}.

(** dimension 2, short, three components, 2 x 2, fill values 10 and 20 *)
Definition args_rgb : Args Q Z :=
  {| argv0 := "ImageMaker"; Dimension := 2; NumberOfComponents := 3;
     ScalarType := "short"; Size := [2; 2]%Z;
     Spacing := [1 # 2; 1 # 2]%Q; Origin := [0; 5]%Q;
     Direction := [0; 1; 1; 0]%Q;
     FillValue := [10; 20]%Z; OutputVolume := "rgb.mha" |}.

(** an unknown scalar type *)
Definition args_bogus : Args Q Z :=
  {| argv0 := "ImageMaker"; Dimension := 3; NumberOfComponents := 1;
     ScalarType := "bogus"; Size := [10; 10; 10]%Z;
     Spacing := [1; 1; 1]%Q; Origin := [0; 0; 0]%Q; Direction := identity3;
     FillValue := [255]%Z; OutputVolume := "out.mha" |}.

(** an extent of zero along the second axis *)
Definition args_empty : Args Q Z :=
  {| argv0 := "ImageMaker"; Dimension := 2; NumberOfComponents := 1;
     ScalarType := "uchar"; Size := [4; 0]%Z;
     Spacing := [1; 1]%Q; Origin := [0; 0]%Q; Direction := [1; 0; 0; 1]%Q;
     FillValue := [7]%Z; OutputVolume := "empty.mha" |}.

Definition world0 : World := {| cout := []; cerr := []; files := ∅ |}.

(** A machine without the memory for the buffer. *)
Definition itk_no_memory : Itk Q Z :=
  {| GetComponentTypeFromString := component_type_of_tag;
     raises := λ c,
       match c with
       | call_Allocate _ =>
           Some {| GetDescription := "Failed to allocate memory for image." |}
       | _ => None
       end;
     uninitialised := λ i, (Z.of_nat i + 42)%Z;
     watcher_report := λ _ _, [];
     writer_Update := λ image _, Written (low_byte <$> m_Buffer image) |}.

(** A machine with the memory for 4096 scalars. *)
Definition itk_limited : Itk Q Z :=
  {| GetComponentTypeFromString := component_type_of_tag;
     raises := λ c,
       match c with
       | call_Allocate scalars =>
           if decide (4096 < scalars)
           then Some {| GetDescription :=
                          "Failed to allocate memory for image." |}
           else None
       | _ => None
       end;
     uninitialised := λ i, (Z.of_nat i + 42)%Z;
     watcher_report := λ _ _, [];
     writer_Update := λ image _, Written (low_byte <$> m_Buffer image) |}.

(** dimension 3, uchar, one component, 2^22 x 2^21 x 2^21: 2^64 voxels *)
Definition args_huge : Args Q Z :=
  {| argv0 := "ImageMaker"; Dimension := 3; NumberOfComponents := 1;
     ScalarType := "uchar"; Size := [4194304; 2097152; 2097152]%Z;
     Spacing := [1; 1; 1]%Q; Origin := [0; 0; 0]%Q; Direction := identity3;
     FillValue := [255]%Z; OutputVolume := "huge.mha" |}.

(** dimension 3, uchar, one component, 49477 x 384773 x 968973220:
    2^64 + 4 voxels *)
Definition args_wrapped : Args Q Z :=
  {| argv0 := "ImageMaker"; Dimension := 3; NumberOfComponents := 1;
     ScalarType := "uchar"; Size := [49477; 384773; 968973220]%Z;
     Spacing := [1; 1; 1]%Q; Origin := [0; 0; 0]%Q; Direction := identity3;
     FillValue := [255]%Z; OutputVolume := "wrapped.mha" |}.

(** [args_rgb] with three entries in every vector and nine in the direction,
    as for dimension 3. *)
Definition args_rgb_long : Args Q Z :=
  {| argv0 := "ImageMaker"; Dimension := 2; NumberOfComponents := 3;
     ScalarType := "short"; Size := [2; 2; 7]%Z;
     Spacing := [1 # 2; 1 # 2; 3]%Q; Origin := [0; 5; 9]%Q;
     Direction := [0; 1; 1; 0; 1; 0; 0; 0; 1]%Q;
     FillValue := [10; 20]%Z; OutputVolume := "rgb.mha" |}.

(** The program on this instance. *)
Definition build (OutputImageType : ImageType) (OutputScalarType : IOComponentType)
    (args : Args Q Z) : M (Image Q Z) :=
  build_image 0%Q 1%Q convert itk OutputImageType OutputScalarType args.

Definition run (args : Args Q Z) : M Z := main 0%Q 1%Q convert itk args.

Definition run_refusing (args : Args Q Z) : M Z :=
  main 0%Q 1%Q convert itk_refusing args.

End Sample.

(** * Properties *)

(** ** Running a computation *)

Lemma bind_Normal {A B} (m : M A) (k : A → M B) w b w' :
  (m ≫= k) w = Normal b w' ↔ ∃ a w1, m w = Normal a w1 ∧ k a w1 = Normal b w'.
Proof.
  unfold mbind, M_bind. split.
  - destruct (m w) as [a w1| |]; [eauto | done | done].
  - intros (a & w1 & -> & Hk). done.
Qed.

Lemma defined_Normal {A} (o : option A) w a w' :
  defined o w = Normal a w' ↔ o = Some a ∧ w' = w.
Proof.
  unfold defined. destruct o as [x|]; split.
  - by intros [= -> ->].
  - by intros [[= ->] ->].
  - done.
  - by intros [? _].
Qed.

Lemma mret_Normal {A} (a b : A) w w' :
  (mret a : M A) w = Normal b w' ↔ a = b ∧ w' = w.
Proof.
  unfold mret, M_ret. split; [by intros [= -> ->] | by intros [-> ->]].
Qed.

(** ** Loops *)

(** A loop whose every iteration is defined and keeps the invariant is
    defined and ends in the invariant. *)
Lemma for_loop_invariant {St} (I : nat → St → Prop) n body s :
  I 0 s →
  (∀ i t, i < n → I i t → ∃ t', body i t = Some t' ∧ I (S i) t') →
  ∃ s', for_loop n body s = Some s' ∧ I n s'.
Proof.
  intros H0. induction n as [|n IH]; intros Hstep; [by eauto|].
  destruct IH as (t & Ht & HI); [intros; apply Hstep; [lia | done]|].
  simpl. rewrite Ht. simpl. apply Hstep; [lia | done].
Qed.

(** The invariant holds at the end of a loop that was defined. *)
Lemma for_loop_partial {St} (I : nat → St → Prop) n body s s' :
  I 0 s →
  (∀ i t t', i < n → I i t → body i t = Some t' → I (S i) t') →
  for_loop n body s = Some s' → I n s'.
Proof.
  intros H0. revert s'. induction n as [|n IH]; intros s' Hstep; simpl.
  - by intros [= <-].
  - intros (t & Ht & Hb)%bind_Some.
    eapply Hstep; [lia | | done].
    apply IH; [|done]. intros; eapply Hstep; [lia | done..].
Qed.

(** A loop whose first iteration is undefined is undefined. *)
Lemma for_loop_first_fails {St} n body (s : St) :
  body 0 s = None → for_loop (S n) body s = None.
Proof.
  intros H. induction n as [|n IH]; [done|].
  change (for_loop (S (S n)) body s)
    with (for_loop (S n) body s ≫= body (S n)).
  by rewrite IH.
Qed.

Lemma tabulate_Some {A} n (f : nat → option A) l :
  tabulate n f = Some l ↔ length l = n ∧ ∀ i, i < n → f i = l !! i.
Proof.
  unfold tabulate. revert l. induction n as [|n IH]; intros l; simpl.
  - split.
    + intros [= <-]. split; [done | lia].
    + intros [Hl _]. by destruct l.
  - rewrite bind_Some. split.
    + intros (out & Hout & (x & Hx & [= <-])%bind_Some).
      apply IH in Hout as [Hlen Hout]. split.
      * rewrite length_app. simpl. lia.
      * intros i Hi. destruct (decide (i = n)) as [->|].
        -- rewrite Hx, lookup_app_r by lia.
           by rewrite Hlen, Nat.sub_diag.
        -- rewrite lookup_app_l by lia. apply Hout. lia.
    + intros [Hlen Hl].
      destruct (lookup_lt_is_Some_2 l n) as [x Hx]; [lia|].
      exists (take n l). split.
      * apply IH. split; [rewrite length_take; lia|].
        intros i Hi. rewrite lookup_take_lt by done. apply Hl. lia.
      * rewrite Hl, Hx by lia. simpl. f_equal.
        rewrite <- (take_drop n l) at 2. f_equal.
        apply list_eq. intros [|i]; simpl.
        -- by rewrite lookup_drop, Nat.add_0_r.
        -- rewrite lookup_drop. symmetry. apply lookup_ge_None_2. lia.
Qed.

(** Copying the first [n] elements of a vector is defined when the vector
    has them. *)
Lemma tabulate_lookup {A B} n (g : A → B) (v : list A) l :
  tabulate n (λ i, g <$> v !! i) = Some l ↔ n ≤ length v ∧ l = g <$> take n v.
Proof.
  rewrite tabulate_Some. split.
  - intros [Hlen Hl]. assert (n ≤ length v) as Hn.
    { destruct n as [|n]; [lia|].
      destruct (lookup_lt_is_Some_2 l n) as [x Hx]; [lia|].
      specialize (Hl n). rewrite Hx in Hl.
      destruct (v !! n) eqn:E; [|by discriminate Hl; lia].
      apply lookup_lt_Some in E. lia. }
    split; [done|]. apply list_eq. intros i.
    destruct (decide (i < n)) as [Hi|Hi].
    + rewrite <- Hl by done. by rewrite list_lookup_fmap, lookup_take_lt.
    + rewrite !lookup_ge_None_2; [done | |lia].
      rewrite length_fmap, length_take. lia.
  - intros [Hn ->]. split; [rewrite length_fmap, length_take; lia|].
    intros i Hi. by rewrite list_lookup_fmap, lookup_take_lt.
Qed.

Lemma tabulate_ext {A} n (f g : nat → option A) :
  (∀ i, i < n → f i = g i) → tabulate n f = tabulate n g.
Proof.
  intros H.
  destruct (tabulate n f) as [l|] eqn:F, (tabulate n g) as [l'|] eqn:G;
    [| |exfalso|done].
  - apply tabulate_Some in F as [Hl HF].
    assert (tabulate n g = Some l) as G'; [|congruence].
    apply tabulate_Some. split; [done|].
    intros i Hi. rewrite <- H by done. by apply HF.
  - apply tabulate_Some in F as [Hl HF].
    assert (tabulate n g = Some l) as G'; [|congruence].
    apply tabulate_Some. split; [done|].
    intros i Hi. rewrite <- H by done. by apply HF.
  - apply tabulate_Some in G as [Hl HG].
    assert (tabulate n f = Some l') as F'; [|congruence].
    apply tabulate_Some. split; [done|].
    intros i Hi. rewrite H by done. by apply HG.
Qed.

Lemma tabulate_take {A} n (v : list A) l :
  tabulate n (λ i, v !! i) = Some l ↔ n ≤ length v ∧ l = take n v.
Proof.
  rewrite (tabulate_ext n _ (λ i, id <$> v !! i)).
  - by rewrite tabulate_lookup, list_fmap_id.
  - intros i _. by rewrite option_fmap_id.
Qed.

Lemma tabulate_defined {A} n (f : nat → option A) :
  (∀ i, i < n → is_Some (f i)) → is_Some (tabulate n f).
Proof.
  unfold tabulate. induction n as [|n IH]; intros H; simpl; [by eexists|].
  destruct IH as [out ->]; [intros; apply H; lia|].
  destruct (H n) as [x ->]; [lia|]. by eexists.
Qed.

(** ** The fill *)

Section Properties.

Context {Real FillScalar Scalar : Type}.
Context (zero one : Real).
Context (convert : IOComponentType → FillScalar → Scalar).

Implicit Types (itk : Itk Real Scalar) (args : Args Real FillScalar).
Implicit Types (image built : Image Real Scalar) (w : World).
Implicit Types (fv : list FillScalar) (pixel buffer : list Scalar).

Lemma FillValue_at_Some fv c v :
  FillValue_at fv c = Some v ↔
  1 ≤ length fv ∧ fv !! (c mod length fv) = Some v.
Proof.
  unfold FillValue_at. case_decide as E.
  - split; [done | lia].
  - split; [intros; split; [lia | done] | by intros [_ ?]].
Qed.

Lemma FillValue_at_defined fv c :
  1 ≤ length fv → is_Some (FillValue_at fv c).
Proof.
  intros Hfv.
  destruct (lookup_lt_is_Some_2 fv (c mod length fv)) as [v Hv].
  { apply Nat.mod_upper_bound. lia. }
  exists v. by apply FillValue_at_Some.
Qed.

Lemma store_Some {A} (a : list A) i x a' :
  store a i x = Some a' ↔ i < length a ∧ a' = <[i := x]> a.
Proof.
  unfold store. case_decide; split.
  - by intros [= <-].
  - by intros [_ ->].
  - done.
  - intros [? _]. lia.
Qed.

(** What the first loop leaves in the buffer, when it is defined. *)
Lemma set_first_pixel_Some T fv n pixel pixel' :
  set_first_pixel convert T fv n pixel = Some pixel' →
  length pixel' = length pixel ∧ n ≤ length pixel ∧
  (∀ c, c < n →
     ∃ v, FillValue_at fv c = Some v ∧ pixel' !! c = Some (convert T v)) ∧
  (∀ c, n ≤ c → pixel' !! c = pixel !! c).
Proof.
  unfold set_first_pixel.
  apply (for_loop_partial (λ i b,
    length b = length pixel ∧ i ≤ length pixel ∧
    (∀ c, c < i →
       ∃ v, FillValue_at fv c = Some v ∧ b !! c = Some (convert T v)) ∧
    (∀ c, i ≤ c → b !! c = pixel !! c))).
  - repeat split; [lia | intros; lia].
  - intros i b b' Hi (Hlen & Hle & Hdone & Hrest).
    intros (v & Hv & (Hib & ->)%store_Some)%bind_Some.
    repeat split.
    + by rewrite length_insert.
    + lia.
    + intros c Hc. destruct (decide (c = i)) as [->|Hne].
      * exists v. split; [done|]. by apply list_lookup_insert_eq.
      * rewrite list_lookup_insert_ne by done. apply Hdone. lia.
    + intros c Hc. rewrite list_lookup_insert_ne by lia. apply Hrest. lia.
Qed.

(** The first loop is defined as soon as there is a fill value and the
    buffer holds the components of one pixel. *)
Lemma set_first_pixel_defined T fv n pixel :
  1 ≤ length fv → n ≤ length pixel →
  is_Some (set_first_pixel convert T fv n pixel).
Proof.
  intros Hfv Hn. unfold set_first_pixel.
  destruct (for_loop_invariant (λ _ b, length b = length pixel) n
    (λ c pixel, v ← FillValue_at fv c; store pixel c (convert T v)) pixel)
    as (b & Hb & _); [done | | by eexists].
  intros i b Hi Hlen.
  destruct (FillValue_at_defined fv i Hfv) as [v Hv].
  exists (<[i := convert T v]> b). rewrite Hv. simpl. split.
  - apply store_Some. split; [lia | done].
  - by rewrite length_insert.
Qed.

Lemma ComputeOffset_start D size :
  ComputeOffset (replicate D 0%Z) (replicate D 0%Z) size = 0%Z.
Proof.
  revert size. induction D as [|D IH]; intros [|n size]; simpl; try done.
  rewrite IH. lia.
Qed.

(** The pixel at the start index of the region is the one at the head of the
    buffer. *)
Lemma GetPixel_start image D :
  region_Index (m_Region image) = replicate D 0%Z →
  GetPixel image (replicate D 0%Z) = Some 0.
Proof.
  intros Hstart. unfold GetPixel. rewrite Hstart, ComputeOffset_start.
  rewrite decide_True by lia. f_equal. simpl. lia.
Qed.

(** [FillBuffer] with the pixel at the head of a buffer that holds [P]
    pixels of [L] scalars: defined, and every pixel becomes the first one. *)
Lemma FillBuffer_first image :
  let L := m_VectorLength image in
  let P := Z.to_nat (GetNumberOfPixels (m_Region image)) in
  length (m_Buffer image) = P * L →
  ∃ buffer, FillBuffer image 0 = Some buffer ∧ length buffer = P * L ∧
    ∀ i j, i < P → j < L → buffer !! (i * L + j) = m_Buffer image !! j.
Proof.
  intros L P Hlen. unfold FillBuffer. fold L P.
  set (b0 := m_Buffer image) in *.
  destruct (for_loop_invariant (λ i b,
    length b = P * L ∧ (∀ j, j < L → b !! j = b0 !! j) ∧
    (∀ p j, p < i → j < L → b !! (p * L + j) = b0 !! j)) P
    (λ i buffer, for_loop L
       (λ j buffer, x ← buffer !! (0 + j); store buffer (i * L + j) x) buffer)
    b0) as (b & Hb & Hl & _ & Hall).
  - repeat split; [done | intros; lia].
  - intros i b Hi (Hl & Hfirst & Hbefore).
    destruct (for_loop_invariant (λ j b',
      length b' = P * L ∧ (∀ j', j' < L → b' !! j' = b0 !! j') ∧
      (∀ p j', p < i → j' < L → b' !! (p * L + j') = b0 !! j') ∧
      (∀ j', j' < j → j' < L → b' !! (i * L + j') = b0 !! j')) L
      (λ j buffer, x ← buffer !! (0 + j); store buffer (i * L + j) x) b)
      as (b' & Hb' & Hl' & Hfirst' & Hbefore' & Hrow).
    + repeat split; [done.. | intros; lia].
    + intros j t Hj (Htl & Htfirst & Htbefore & Htrow).
      assert ((i + 1) * L ≤ P * L) as Hrows by (apply Nat.mul_le_mono_r; lia).
      destruct (lookup_lt_is_Some_2 t j) as [x Hx]; [lia|].
      exists (<[i * L + j := x]> t). simpl. rewrite Hx. simpl. split.
      { apply store_Some. split; [lia | done]. }
      assert (Some x = b0 !! j) as Hxj by (rewrite <- Hx; by apply Htfirst).
      repeat split.
      * by rewrite length_insert.
      * intros j' Hj'. destruct (decide (i * L + j = j')) as [E|E].
        -- assert (i = 0) as -> by nia. assert (j' = j) as -> by lia.
           rewrite list_lookup_insert_eq by lia. done.
        -- rewrite list_lookup_insert_ne by done. by apply Htfirst.
      * intros p j' Hp Hj'.
        assert ((p + 1) * L ≤ i * L) by (apply Nat.mul_le_mono_r; lia).
        rewrite list_lookup_insert_ne by lia. by apply Htbefore.
      * intros j' Hj' Hj'L. destruct (decide (j' = j)) as [->|E].
        -- rewrite list_lookup_insert_eq by lia. done.
        -- rewrite list_lookup_insert_ne by lia. apply Htrow; lia.
    + exists b'. split; [done|]. repeat split; [done.. |].
      intros p j Hp Hj. destruct (decide (p = i)) as [->|E].
      * by apply Hrow.
      * apply Hbefore'; lia.
  - exists b. by repeat split.
Qed.

(** ** The stages of [DoIt<OutputImageType, OutputScalarType>] *)

Lemma itk_call_Normal itk c w u w' :
  itk_call itk c w = Normal u w' ↔ raises itk c = None ∧ w' = w.
Proof.
  unfold itk_call. destruct (raises itk c); split.
  - done.
  - by intros [? _].
  - by intros [= _ ->].
  - intros [_ ->]. by destruct u.
Qed.

Lemma allocate_image_Normal itk OIT args w image w' :
  allocate_image zero one itk OIT args w = Normal image w' →
  w' = w ∧ image_type image = OIT ∧
  m_VectorLength image = components_of OIT args ∧
  ImageDimension OIT ≤ length (Size args) ∧
  m_Region image
  = {| region_Size := to_SizeValueType <$> take (ImageDimension OIT) (Size args);
       region_Index := replicate (ImageDimension OIT) 0%Z |} ∧
  raises itk (call_Allocate (buffer_size image)) = None ∧
  m_Buffer image = uninitialised itk <$> seq 0 (buffer_size image).
Proof.
  unfold allocate_image, Allocate. cbv zeta.
  intros (size & w1 & [Hsize ->]%defined_Normal & H)%bind_Normal.
  apply bind_Normal in H as (u & w2 & [Hraise ->]%itk_call_Normal & H).
  apply mret_Normal in H as [<- ->].
  apply tabulate_lookup in Hsize as [HD ->].
  unfold components_of, SetNumberOfComponentsPerPixel in *.
  destruct OIT as [[] T D]; simpl in *; case_decide; simpl in *; done.
Qed.

Lemma allocate_image_allocated itk OIT args w image w' :
  allocate_image zero one itk OIT args w = Normal image w' → allocated image.
Proof.
  intros (_ & Htype & _ & _ & Hregion & _ & Hbuf)%allocate_image_Normal.
  split.
  - by rewrite Hbuf, length_fmap, length_seq.
  - by rewrite Hregion, Htype.
Qed.

(** The geometry stage leaves the type, the length of the pixels, the region
    and the buffer as they are and attaches what the command line gives. *)
Lemma set_geometry_Normal itk args image w image' w' :
  set_geometry itk args image w = Normal image' w' →
  let D := ImageDimension (image_type image) in
  w' = w ∧ image_type image' = image_type image ∧
  m_VectorLength image' = m_VectorLength image ∧
  m_Region image' = m_Region image ∧
  m_Buffer image' = m_Buffer image ∧
  D ≤ length (Spacing args) ∧ m_Spacing image' = take D (Spacing args) ∧
  D ≤ length (Origin args) ∧ m_Origin image' = take D (Origin args) ∧
  tabulate D (λ r, tabulate D (λ c, Direction args !! (r * D + c)))
  = Some (m_Direction image').
Proof.
  unfold set_geometry, SetSpacing, SetOrigin, SetDirection. cbv zeta.
  intros (spacing & w1 & [Hsp ->]%defined_Normal & H)%bind_Normal.
  apply bind_Normal in H as (i1 & w1 & H1 & H).
  apply bind_Normal in H1 as (u & w2 & [_ ->]%itk_call_Normal & H1).
  apply mret_Normal in H1 as [<- ->].
  apply bind_Normal in H as (origin & w1 & [Hor ->]%defined_Normal & H).
  apply bind_Normal in H as (i2 & w1 & H2 & H).
  apply bind_Normal in H2 as (u' & w2 & [_ ->]%itk_call_Normal & H2).
  apply mret_Normal in H2 as [<- ->].
  apply bind_Normal in H as (direction & w1 & [Hdir ->]%defined_Normal & H).
  apply bind_Normal in H as (u'' & w2 & [_ ->]%itk_call_Normal & H).
  apply mret_Normal in H as [<- ->].
  apply tabulate_take in Hsp as [? ->]. apply tabulate_take in Hor as [? ->].
  simpl. by repeat split.
Qed.

(** *** The 64-bit counts *)

Lemma to_SizeValueType_range z :
  (0 ≤ to_SizeValueType z < 2 ^ SizeValueType_bits)%Z.
Proof. unfold to_SizeValueType. by apply Z.mod_pos_bound. Qed.

Lemma count_pixels_from a size :
  (0 ≤ a < 2 ^ SizeValueType_bits)%Z →
  foldl (λ numPixels n, to_SizeValueType (numPixels * n)) a size
  = ((a * product size) `mod` 2 ^ SizeValueType_bits)%Z.
Proof.
  revert a. induction size as [|n size IH]; intros a Ha; simpl.
  - rewrite Z.mul_1_r. symmetry. by apply Z.mod_small.
  - rewrite IH by apply to_SizeValueType_range. unfold to_SizeValueType.
    rewrite Z.mul_mod_idemp_l by done. f_equal. lia.
Qed.

(** The count of the pixels is the product of the extents modulo 2^64. *)
Lemma count_pixels_product size :
  count_pixels size = (product size `mod` 2 ^ SizeValueType_bits)%Z.
Proof.
  unfold count_pixels. rewrite count_pixels_from by done.
  by rewrite Z.mul_1_l.
Qed.

Lemma count_pixels_range size :
  (0 ≤ count_pixels size < 2 ^ SizeValueType_bits)%Z.
Proof. rewrite count_pixels_product. by apply Z.mod_pos_bound. Qed.

Lemma buffer_size_fits image :
  (Z.of_nat (buffer_size image) < 2 ^ SizeValueType_bits)%Z.
Proof.
  unfold buffer_size.
  pose proof (to_SizeValueType_range
    (GetNumberOfPixels (m_Region image) * Z.of_nat (m_VectorLength image))).
  lia.
Qed.

(** The buffer never holds more scalars than the pixels ask for. *)
Lemma buffer_size_le image :
  buffer_size image
  ≤ Z.to_nat (GetNumberOfPixels (m_Region image)) * m_VectorLength image.
Proof.
  unfold buffer_size, GetNumberOfPixels, to_SizeValueType.
  pose proof (count_pixels_range (region_Size (m_Region image))) as HP.
  set (P := count_pixels _) in *. set (L := m_VectorLength image).
  assert ((P * Z.of_nat L) `mod` 2 ^ SizeValueType_bits ≤ P * Z.of_nat L)%Z
    by (apply Z.mod_le; [nia | done]).
  nia.
Qed.

(** It holds them all when their number fits 64 bits. *)
Lemma buffer_size_exact image :
  (GetNumberOfPixels (m_Region image) * Z.of_nat (m_VectorLength image)
   < 2 ^ SizeValueType_bits)%Z →
  buffer_size image
  = Z.to_nat (GetNumberOfPixels (m_Region image)) * m_VectorLength image.
Proof.
  intros Hfit. unfold buffer_size, GetNumberOfPixels, to_SizeValueType in *.
  pose proof (count_pixels_range (region_Size (m_Region image))) as HP.
  rewrite Z.mod_small by nia. nia.
Qed.

(** [FillBuffer] is defined only on a buffer that holds every pixel. *)
Lemma FillBuffer_bound image value buffer :
  FillBuffer image value = Some buffer →
  Z.to_nat (GetNumberOfPixels (m_Region image)) * m_VectorLength image
  ≤ length (m_Buffer image).
Proof.
  unfold FillBuffer. set (L := m_VectorLength image).
  set (b0 := m_Buffer image). intros H.
  apply (for_loop_partial
    (λ i b, length b = length b0 ∧ i * L ≤ length b0)) in H; [by destruct H| |].
  { split; [done | lia]. }
  intros i b b' Hi [Hlen Hle] Hrow.
  apply (for_loop_partial
    (λ j t, length t = length b0 ∧ (j = 0 ∨ i * L + j ≤ length b0))) in Hrow.
  - destruct Hrow as [Hl [->|Hj]]; split; try done; lia.
  - split; [done | by left].
  - intros j t t' Hj [Htl _].
    intros (x & _ & (Hin & ->)%store_Some)%bind_Some.
    split; [by rewrite length_insert | right; lia].
Qed.

(** The fill stage on an allocated image: the buffer keeps its length and
    every pixel holds the converted fill values, taken cyclically. *)
Lemma fill_image_Normal T args image w image' w' :
  allocated image →
  fill_image convert T args image w = Normal image' w' →
  let L := m_VectorLength image in
  let P := Z.to_nat (GetNumberOfPixels (m_Region image)) in
  w' = w ∧ image_type image' = image_type image ∧
  m_VectorLength image' = L ∧ m_Region image' = m_Region image ∧
  m_Spacing image' = m_Spacing image ∧ m_Origin image' = m_Origin image ∧
  m_Direction image' = m_Direction image ∧
  length (m_Buffer image') = P * L ∧
  (0 < L → 1 ≤ length (FillValue args) ∧ 0 < P) ∧
  ∀ p c, p < P → c < L →
    ∃ v, FillValue_at (FillValue args) c = Some v ∧
         m_Buffer image' !! (p * L + c) = Some (convert T v).
Proof.
  intros [Hlen Hstart]. unfold fill_image. cbv zeta.
  intros (pixel & w1 & [Hpixel ->]%defined_Normal & H)%bind_Normal.
  apply bind_Normal in H as (value & w1 & [Hvalue ->]%defined_Normal & H).
  apply bind_Normal in H as (buffer & w1 & [Hbuffer ->]%defined_Normal & H).
  apply mret_Normal in H as [<- ->].
  apply set_first_pixel_Some in Hpixel as (Hpl & Hn & Hfirst & _).
  rewrite (GetPixel_start _ (ImageDimension (image_type image))) in Hvalue
    by done.
  injection Hvalue as <-.
  pose proof (FillBuffer_bound _ _ _ Hbuffer) as Hbound.
  pose proof (buffer_size_le image) as Hle. simpl in Hbound.
  destruct (FillBuffer_first (with_Buffer pixel image))
    as (buffer' & Hb' & Hbl & Hall).
  { simpl. lia. }
  rewrite Hb' in Hbuffer. injection Hbuffer as <-.
  unfold GetNumberOfComponentsPerPixel in *.
  simpl in *. repeat split; try done.
  - destruct (Hfirst 0) as (v & (? & _)%FillValue_at_Some & _); done.
  - nia.
  - intros p c Hp Hc. rewrite Hall by done. by apply Hfirst.
Qed.

(** The fill stage is defined on an allocated image that has a pixel, when
    there is a fill value. *)
Lemma fill_image_defined T args image w :
  allocated image →
  1 ≤ length (FillValue args) →
  0 < Z.to_nat (GetNumberOfPixels (m_Region image)) →
  (GetNumberOfPixels (m_Region image) * Z.of_nat (m_VectorLength image)
   < 2 ^ SizeValueType_bits)%Z →
  ∃ image', fill_image convert T args image w = Normal image' w.
Proof.
  intros [Hlen Hstart] Hfv HP Hfit. unfold fill_image. cbv zeta.
  rewrite buffer_size_exact in Hlen by done.
  destruct (set_first_pixel_defined T (FillValue args)
    (GetNumberOfComponentsPerPixel image) (m_Buffer image)) as [pixel Hpixel].
  { done. }
  { rewrite Hlen. unfold GetNumberOfComponentsPerPixel. nia. }
  pose proof Hpixel as (Hpl & _)%set_first_pixel_Some.
  destruct (FillBuffer_first (with_Buffer pixel image))
    as (buffer' & Hb' & _).
  { simpl. by rewrite Hpl. }
  eexists. unfold mbind, M_bind, defined. rewrite Hpixel.
  rewrite (GetPixel_start _ (ImageDimension (image_type image))) by done.
  by rewrite Hb'.
Qed.

(** The fill stage is defined only when the buffer holds every scalar of the
    region: their number fits the 64-bit count. *)
Lemma fill_image_fits T args image w image' w' :
  allocated image →
  fill_image convert T args image w = Normal image' w' →
  Z.to_nat (GetNumberOfPixels (m_Region image)) * m_VectorLength image
  = buffer_size image.
Proof.
  intros [Hlen Hstart]. unfold fill_image. cbv zeta.
  intros (pixel & w1 & [Hpixel ->]%defined_Normal & H)%bind_Normal.
  apply bind_Normal in H as (value & w1 & [Hvalue ->]%defined_Normal & H).
  apply bind_Normal in H as (buffer & w1 & [Hbuffer ->]%defined_Normal & H).
  apply set_first_pixel_Some in Hpixel as (Hpl & _).
  pose proof (FillBuffer_bound _ _ _ Hbuffer) as Hbound.
  pose proof (buffer_size_le image) as Hle. simpl in Hbound. lia.
Qed.

(** ** [build_image] *)

(** Everything about an image that was built, read off the command line. *)
Lemma build_image_Normal itk OIT T args w built w' :
  build_image zero one convert itk OIT T args w = Normal built w' →
  let D := ImageDimension OIT in
  let L := components_of OIT args in
  let size := to_SizeValueType <$> take D (Size args) in
  let P := Z.to_nat (count_pixels size) in
  w' = w ∧ image_type built = OIT ∧ m_VectorLength built = L ∧
  D ≤ length (Size args) ∧
  m_Region built = {| region_Size := size; region_Index := replicate D 0%Z |} ∧
  (D ≤ length (Spacing args) ∧ m_Spacing built = take D (Spacing args)) ∧
  (D ≤ length (Origin args) ∧ m_Origin built = take D (Origin args)) ∧
  tabulate D (λ r, tabulate D (λ c, Direction args !! (r * D + c)))
  = Some (m_Direction built) ∧
  length (m_Buffer built) = P * L ∧
  (0 < L → 1 ≤ length (FillValue args) ∧ 0 < P) ∧
  ∀ p c, p < P → c < L →
    ∃ v, FillValue_at (FillValue args) c = Some v ∧
         m_Buffer built !! (p * L + c) = Some (convert T v).
Proof.
  unfold build_image.
  intros (i1 & w1 & H1 & H)%bind_Normal.
  apply bind_Normal in H as (i2 & w2 & H2 & H3).
  pose proof (allocate_image_allocated _ _ _ _ _ _ H1) as [Hlen Hstart].
  apply allocate_image_Normal in H1
    as (-> & Htype & HL & HD & Hregion & _ & _).
  apply set_geometry_Normal in H2
    as (-> & Htype2 & HL2 & Hregion2 & Hbuf2 & Hsp & Hsp' & Hor & Hor' & Hdir).
  apply fill_image_Normal in H3
    as (-> & Htype3 & HL3 & Hregion3 & Hsp3 & Hor3 & Hdir3 & Hbl & Hpos & Hall).
  2:{ split; [by rewrite Hbuf2; unfold buffer_size; rewrite Hregion2, HL2
             | by rewrite Hregion2, Htype2]. }
  rewrite Htype in *. rewrite HL2, HL in *. rewrite Hregion2, Hregion in *.
  unfold GetNumberOfPixels in *. simpl in *.
  repeat split; try congruence; try done; by destruct Hpos.
Qed.

(** The scalars of an image that was built are as many as [Allocate] was
    asked for: their number did not wrap. *)
Lemma build_image_fits itk OIT T args w built w' :
  build_image zero one convert itk OIT T args w = Normal built w' →
  (pixels_of (ImageDimension OIT) args * Z.of_nat (components_of OIT args)
   < 2 ^ SizeValueType_bits)%Z ∧
  length (m_Buffer built) = scalars_of OIT args.
Proof.
  intros Hbuilt.
  pose proof Hbuilt
    as (_ & _ & _ & _ & _ & _ & _ & _ & Hl & _)%build_image_Normal.
  revert Hbuilt. unfold build_image.
  intros (i1 & w1 & H1 & H)%bind_Normal.
  apply bind_Normal in H as (i2 & w2 & H2 & H3).
  pose proof (allocate_image_allocated _ _ _ _ _ _ H1) as [Hlen Hstart].
  apply allocate_image_Normal in H1
    as (-> & Htype & HL & HD & Hregion & _ & _).
  apply set_geometry_Normal in H2
    as (-> & Htype2 & HL2 & Hregion2 & Hbuf2 & _).
  apply fill_image_fits in H3.
  2:{ split; [by rewrite Hbuf2; unfold buffer_size; rewrite Hregion2, HL2
             | by rewrite Hregion2, Htype2]. }
  rewrite Hregion2, HL2, Hregion, HL in H3.
  unfold buffer_size in H3. rewrite Hregion2, HL2, Hregion, HL in H3.
  unfold GetNumberOfPixels in H3. simpl in H3.
  fold (pixels_of (ImageDimension OIT) args) in H3, Hl.
  fold (scalars_of OIT args) in H3.
  split; [|lia].
  pose proof (to_SizeValueType_range
    (pixels_of (ImageDimension OIT) args * Z.of_nat (components_of OIT args)))
    as Hrange.
  pose proof (count_pixels_range
    (to_SizeValueType <$> take (ImageDimension OIT) (Size args))) as HP.
  fold (pixels_of (ImageDimension OIT) args) in HP.
  unfold scalars_of in H3. nia.
Qed.


Lemma allocate_image_defined itk OIT args w :
  ImageDimension OIT ≤ length (Size args) →
  raises itk (call_Allocate (scalars_of OIT args)) = None →
  ∃ image, allocate_image zero one itk OIT args w = Normal image w.
Proof.
  intros HD Hquiet. unfold allocate_image, Allocate. cbv zeta.
  destruct (tabulate (ImageDimension OIT)
    (λ i, to_SizeValueType <$> Size args !! i)) as [size|] eqn:Hsize.
  - apply tabulate_lookup in Hsize as [_ ->].
    eexists. unfold mbind, M_bind, defined, itk_call.
    replace (buffer_size _) with (scalars_of OIT args); [by rewrite Hquiet|].
    unfold scalars_of, pixels_of, buffer_size, GetNumberOfPixels,
      components_of, SetNumberOfComponentsPerPixel.
    destruct OIT as [[] T D]; simpl; by case_decide.
  - assert (is_Some (tabulate (ImageDimension OIT)
      (λ i, to_SizeValueType <$> Size args !! i))) as [? ?]; [|congruence].
    apply tabulate_defined. intros i Hi. apply fmap_is_Some.
    apply lookup_lt_is_Some_2. lia.
Qed.



(** ** The dispatch *)

Lemma DoIt_D_recognised itk D args n tag w :
  GetComponentTypeFromString itk tag ≠ UNKNOWNCOMPONENTTYPE →
  DoIt_D zero one convert itk D args n tag w
  = DoIt_image zero one convert itk
      (if bool_decide (1 < n)%Z
       then VectorImage_of (GetComponentTypeFromString itk tag) D
       else Image_of (GetComponentTypeFromString itk tag) D)
      (GetComponentTypeFromString itk tag) args w.
Proof.
  intros HT. unfold DoIt_D.
  destruct (GetComponentTypeFromString itk tag); [done|..];
    by destruct (bool_decide (1 < n)%Z).
Qed.

Lemma DoIt_D_unknown itk D args n tag w :
  GetComponentTypeFromString itk tag = UNKNOWNCOMPONENTTYPE →
  DoIt_D zero one convert itk D args n tag w
  = Normal EXIT_FAILURE (to_cout "unknown component type" w).
Proof. intros HT. unfold DoIt_D. by rewrite HT. Qed.

Lemma main_switch_cases itk args w :
  main_switch zero one convert itk args w
  = DoIt_D zero one convert itk (ImageDimension_of args)
      args (NumberOfComponents args) (ScalarType args) w.
Proof.
  unfold main_switch, ImageDimension_of.
  destruct (Dimension args) as [|[p|[p|p|]|]|p]; simpl;
    repeat case_decide; done.
Qed.


(** C3. For a scalar type the library knows, [DoIt<D>] runs the builder on
    [itk::VectorImage<T, D>] when the number of components exceeds one and on
    [itk::Image<T, D>] when it is one; an image built for one component is an
    [itk::Image] with one component per pixel, never an [itk::VectorImage]
    of length one. *)
Theorem component_count_routing itk D args n tag w :
  GetComponentTypeFromString itk tag ≠ UNKNOWNCOMPONENTTYPE →
  let T := GetComponentTypeFromString itk tag in
  ((1 < n)%Z →
     DoIt_D zero one convert itk D args n tag w
     = DoIt_image zero one convert itk (VectorImage_of T D) T args w) ∧
  (n = 1%Z →
     DoIt_D zero one convert itk D args n tag w
     = DoIt_image zero one convert itk (Image_of T D) T args w) ∧
  (∀ built w', NumberOfComponents args = 1%Z →
     build_image zero one convert itk (OutputImageType_of itk args D)
       (OutputScalarType_of itk args) args w = Normal built w' →
     image_class (image_type built) = itk_Image ∧
     GetNumberOfComponentsPerPixel built = 1) ∧
  (∀ built w', (1 < NumberOfComponents args)%Z →
     build_image zero one convert itk (OutputImageType_of itk args D)
       (OutputScalarType_of itk args) args w = Normal built w' →
     image_class (image_type built) = itk_VectorImage ∧
     GetNumberOfComponentsPerPixel built = Z.to_nat (NumberOfComponents args)).
Proof.
  intros HT T. split; [|split; [|split]].
  - intros Hn. rewrite DoIt_D_recognised by done.
    by rewrite bool_decide_eq_true_2.
  - intros ->. by rewrite DoIt_D_recognised.
  - intros built w' Hn (_ & Htype & HL & _)%build_image_Normal.
    unfold GetNumberOfComponentsPerPixel. rewrite HL, Htype.
    unfold OutputImageType_of. rewrite Hn. done.
  - intros built w' Hn (_ & Htype & HL & _)%build_image_Normal.
    unfold GetNumberOfComponentsPerPixel. rewrite HL, Htype.
    unfold OutputImageType_of, components_of.
    rewrite bool_decide_eq_true_2 by done. simpl. by rewrite decide_True.
Qed.


(** C5. On a scalar type the library does not know, [DoIt<D>] raises
    nothing: it prints one line and returns [EXIT_FAILURE]; the files are
    those of before, and so does [main]. *)
Theorem unknown_scalar_type itk D args n tag w :
  GetComponentTypeFromString itk tag = UNKNOWNCOMPONENTTYPE →
  DoIt_D zero one convert itk D args n tag w
  = Normal EXIT_FAILURE (to_cout "unknown component type" w) ∧
  EXIT_FAILURE ≠ EXIT_SUCCESS ∧
  files (to_cout "unknown component type" w) = files w ∧
  (ScalarType args = tag →
   main zero one convert itk args w
   = Normal EXIT_FAILURE (to_cout "unknown component type" w)).
Proof.
  intros HT. repeat split; [by apply DoIt_D_unknown | done |].
  intros <-. unfold main, try_catch.
  by rewrite main_switch_cases, DoIt_D_unknown.
Qed.

(** ** Valid configurations *)

Lemma to_SizeValueType_id size :
  Forall (λ n, (0 ≤ n < 2 ^ SizeValueType_bits)%Z) size →
  to_SizeValueType <$> size = size.
Proof.
  induction 1 as [|n size Hn _ IH]; simpl; [done|].
  f_equal; [|done]. unfold to_SizeValueType. by apply Z.mod_small.
Qed.

Lemma product_nonneg size :
  Forall (λ n, (0 ≤ n)%Z) size → (0 ≤ product size)%Z.
Proof. induction 1; simpl; lia. Qed.


Lemma valid_region_size itk args D :
  valid_configuration itk args D →
  to_SizeValueType <$> take D (Size args) = Size args.
Proof.
  intros [_ [Hlen Hall] _ _ _].
  rewrite take_ge by lia. by apply to_SizeValueType_id.
Qed.

(** On a valid configuration whose scalars fit the 64-bit count, the counts
    of the program are the products of the specification. *)
Lemma valid_counts itk args D :
  valid_configuration itk args D →
  (NumberOfComponents args * product (Size args) < 2 ^ SizeValueType_bits)%Z →
  pixels_of D args = product (Size args) ∧
  (pixels_of D args * Z.of_nat (Z.to_nat (NumberOfComponents args))
   = NumberOfComponents args * product (Size args))%Z ∧
  (0 ≤ NumberOfComponents args * product (Size args))%Z.
Proof.
  intros Hvalid Hfit.
  pose proof (valid_region_size itk args D Hvalid) as Hsize.
  destruct Hvalid as [[_ Hn _ _] [_ Hall] _ _ _].
  assert (0 ≤ product (Size args))%Z as Hprod.
  { apply product_nonneg. eapply Forall_impl; [done|]. simpl. lia. }
  assert (pixels_of D args = product (Size args)) as ->.
  { unfold pixels_of. rewrite Hsize, count_pixels_product.
    apply Z.mod_small. nia. }
  split; [done|]. rewrite Z2Nat.id by lia. split; [lia | nia].
Qed.

Lemma valid_components_of itk args D :
  valid_pixel_parameters itk args D →
  components_of (OutputImageType_of itk args D) args
  = Z.to_nat (NumberOfComponents args).
Proof.
  intros [_ Hn _ _]. unfold components_of, OutputImageType_of.
  case_bool_decide; simpl.
  - by rewrite decide_True.
  - by replace (NumberOfComponents args) with 1%Z by lia.
Qed.

Lemma OutputImageType_of_dimension itk args D :
  ImageDimension (OutputImageType_of itk args D) = D.
Proof. unfold OutputImageType_of. by case_bool_decide. Qed.

Lemma valid_scalars_of itk args D :
  valid_configuration itk args D →
  (NumberOfComponents args * product (Size args) < 2 ^ SizeValueType_bits)%Z →
  scalars_of (OutputImageType_of itk args D) args
  = Z.to_nat (NumberOfComponents args * product (Size args)).
Proof.
  intros Hvalid Hfit.
  pose proof (valid_counts itk args D Hvalid Hfit) as (_ & Hmul & Hnn).
  unfold scalars_of.
  rewrite (valid_components_of itk args D (valid_pixel _ _ _ Hvalid)).
  rewrite OutputImageType_of_dimension, Hmul.
  unfold to_SizeValueType. by rewrite Z.mod_small by lia.
Qed.




(** C2, as the code has it.  On a valid configuration whose number of
    scalars [numberOfComponents * product(size)] fits the 64-bit count, when
    the library grants the memory, the builder allocates a region whose
    extents are the entries of [size] and whose start index is zero on every
    axis, whatever the origin, and a buffer of
    [numberOfComponents * product(size)] scalars; the image that is built
    keeps this region and this number of scalars. *)
Theorem region_and_buffer itk args D w :
  valid_configuration itk args D →
  (NumberOfComponents args * product (Size args) < 2 ^ SizeValueType_bits)%Z →
  raises itk (call_Allocate
    (Z.to_nat (NumberOfComponents args * product (Size args)))) = None →
  let OIT := OutputImageType_of itk args D in
  ∃ image,
    allocate_image zero one itk OIT args w = Normal image w ∧
    region_Size (m_Region image) = Size args ∧
    region_Index (m_Region image) = replicate D 0%Z ∧
    Z.of_nat (length (m_Buffer image))
    = (NumberOfComponents args * product (Size args))%Z ∧
    ∀ built w',
      build_image zero one convert itk OIT (OutputScalarType_of itk args) args w
      = Normal built w' →
      m_Region built = m_Region image ∧
      length (m_Buffer built) = length (m_Buffer image).
Proof.
  intros Hvalid Hfit Hraise OIT.
  pose proof (valid_region_size itk args D Hvalid) as Hsize.
  pose proof (valid_scalars_of itk args D Hvalid Hfit) as Hscalars.
  pose proof (valid_counts itk args D Hvalid Hfit) as (_ & _ & Hnn).
  pose proof (OutputImageType_of_dimension itk args D) as HD.
  destruct (allocate_image_defined itk OIT args w) as [image Himage].
  { destruct Hvalid as [_ [Hlen _] _ _ _]. unfold OIT. rewrite HD. lia. }
  { unfold OIT. by rewrite Hscalars. }
  exists image. split; [done|].
  pose proof (allocate_image_allocated _ _ _ _ _ _ Himage) as [Hlen _].
  pose proof Himage as (_ & _ & HL' & _ & Hregion & _)%allocate_image_Normal.
  assert (length (m_Buffer image)
          = Z.to_nat (NumberOfComponents args * product (Size args))) as Hbuf.
  { rewrite Hlen, <- Hscalars.
    unfold buffer_size, scalars_of, pixels_of, GetNumberOfPixels.
    by rewrite Hregion, HL'. }
  unfold OIT in *. rewrite HD, Hsize in Hregion.
  split; [by rewrite Hregion|]. split; [by rewrite Hregion|]. split.
  { rewrite Hbuf. lia. }
  intros built w' Hbuilt.
  pose proof Hbuilt as [_ Hl]%build_image_fits.
  apply build_image_Normal in Hbuilt as (_ & _ & _ & _ & Hr & _).
  rewrite HD, Hsize in Hr.
  split; [by rewrite Hr, Hregion | by rewrite Hl, Hbuf, Hscalars].
Qed.

(** C6. On a valid configuration, the image that is built carries the
    spacing and the origin of the command line as they are, and its direction
    matrix holds at row [r] and column [c] the entry [r * dimension + c] of
    the flattened direction; the values are of a type the program has no
    operation on, so nothing constrains or changes them. *)
Theorem geometry_verbatim itk args D w built w' :
  valid_configuration itk args D →
  build_image zero one convert itk (OutputImageType_of itk args D)
    (OutputScalarType_of itk args) args w = Normal built w' →
  m_Spacing built = Spacing args ∧
  m_Origin built = Origin args ∧
  length (m_Direction built) = D ∧
  ∀ r c, r < D → c < D →
    ∃ x, Direction args !! (r * D + c) = Some x ∧
         entry (m_Direction built) r c = Some x.
Proof.
  intros Hvalid
    (_ & _ & _ & _ & _ & [_ Hsp] & [_ Hor] & Hdir & _)%build_image_Normal.
  rewrite (OutputImageType_of_dimension itk args D) in *.
  destruct Hvalid as [_ _ Hlsp Hlor Hldir].
  rewrite take_ge in Hsp by lia. rewrite take_ge in Hor by lia.
  apply tabulate_Some in Hdir as [Hrows Hdir].
  repeat split; try done.
  intros r c Hr Hc. specialize (Hdir r Hr).
  destruct (m_Direction built !! r) as [row|] eqn:Hrow.
  - apply tabulate_Some in Hdir as [_ Hcols]. specialize (Hcols c Hc).
    destruct (lookup_lt_is_Some_2 (Direction args) (r * D + c)) as [x Hx].
    { assert ((r + 1) * D ≤ D * D) by (apply Nat.mul_le_mono_r; lia). lia. }
    exists x. split; [done|]. unfold entry. rewrite Hrow. simpl.
    by rewrite <- Hcols.
  - apply lookup_ge_None in Hrow. lia.
Qed.

(** ** The fill values *)

(** C9. With at least one fill value, the index [c % FillValue.size()] of
    every read of the fill loop is below the size, the read yields the value
    at that index, and the loop is defined on a buffer that holds the
    components; with no fill value the remainder is by zero: the loop is
    undefined from its first iteration, and no image with a component is
    built. *)
Theorem fill_value_access T fv :
  (1 ≤ length fv →
   (∀ c, c mod length fv < length fv ∧
         ∃ v, fv !! (c mod length fv) = Some v ∧ FillValue_at fv c = Some v) ∧
   (∀ n pixel, n ≤ length pixel →
      is_Some (set_first_pixel convert T fv n pixel))) ∧
  (length fv = 0 →
   (∀ c, FillValue_at fv c = None) ∧
   (∀ n pixel, set_first_pixel convert T fv (S n) pixel = None) ∧
   (∀ itk OIT args w built w',
      FillValue args = fv → 0 < components_of OIT args →
      build_image zero one convert itk OIT T args w ≠ Normal built w')).
Proof.
  split.
  - intros Hfv. split.
    + intros c. split; [apply Nat.mod_upper_bound; lia|].
      destruct (FillValue_at_defined fv c Hfv) as [v Hv]. exists v.
      split; [|done]. by apply FillValue_at_Some in Hv as [_ ?].
    + intros n pixel Hn. by apply set_first_pixel_defined.
  - intros Hfv.
    assert (∀ c, FillValue_at fv c = None) as Hnone.
    { intros c. unfold FillValue_at. by rewrite decide_True. }
    split; [done|]. split.
    + intros n pixel. unfold set_first_pixel. apply for_loop_first_fails.
      by rewrite Hnone.
    + intros itk OIT args w built w' <- HL
        (_ & _ & _ & _ & _ & _ & _ & _ & _ & Hpos & _)%build_image_Normal.
      destruct (Hpos HL). lia.
Qed.

(** ** One component or fewer *)



(** ** Exit status *)

Lemma write_image_Written itk args image f w :
  writer_Update itk image (OutputVolume args) = Written f →
  write_image itk args image w
  = Normal () (store_file (OutputVolume args) f
      {| cout := cout w ++ watcher_report itk image (OutputVolume args);
         cerr := cerr w; files := files w |}).
Proof. intros H. unfold write_image. by rewrite H. Qed.

Lemma write_image_Failed itk args image e partial w :
  writer_Update itk image (OutputVolume args) = Failed e partial →
  ∃ w', write_image itk args image w = Raised e w' ∧ cerr w' = cerr w.
Proof.
  intros H. unfold write_image. rewrite H. destruct partial; by eexists.
Qed.

(** A run of the builder and the writer that returns has written the file
    and returns [EXIT_SUCCESS]. *)
Lemma DoIt_image_Normal itk OIT T args w c w' :
  DoIt_image zero one convert itk OIT T args w = Normal c w' →
  c = EXIT_SUCCESS ∧
  ∃ built f,
    build_image zero one convert itk OIT T args w = Normal built w ∧
    writer_Update itk built (OutputVolume args) = Written f ∧
    w' = store_file (OutputVolume args) f
           {| cout := cout w ++ watcher_report itk built (OutputVolume args);
              cerr := cerr w; files := files w |}.
Proof.
  unfold DoIt_image.
  intros (built & w1 & Hb & H)%bind_Normal.
  apply bind_Normal in H as (u & w2 & Hw & [<- ->]%mret_Normal).
  pose proof Hb as (-> & _)%build_image_Normal.
  split; [done|]. exists built. unfold write_image in Hw.
  destruct (writer_Update itk built (OutputVolume args)) as [f|e [f|]] eqn:E;
    [|done..].
  exists f. injection Hw as <-. done.
Qed.

Lemma main_switch_recognised itk args w :
  OutputScalarType_of itk args ≠ UNKNOWNCOMPONENTTYPE →
  main_switch zero one convert itk args w
  = DoIt_image zero one convert itk
      (OutputImageType_of itk args (ImageDimension_of args))
      (OutputScalarType_of itk args) args w.
Proof. intros HT. rewrite main_switch_cases. by rewrite DoIt_D_recognised. Qed.

(** When the image is built and the writer writes it, [main] returns
    [EXIT_SUCCESS] and the file is there. *)
Lemma main_written itk args w built f :
  OutputScalarType_of itk args ≠ UNKNOWNCOMPONENTTYPE →
  build_image zero one convert itk
    (OutputImageType_of itk args (ImageDimension_of args))
    (OutputScalarType_of itk args) args w = Normal built w →
  writer_Update itk built (OutputVolume args) = Written f →
  ∃ w', main zero one convert itk args w = Normal EXIT_SUCCESS w' ∧
        files w' !! OutputVolume args = Some f ∧ cerr w' = cerr w.
Proof.
  intros HT Hb Hw. eexists.
  unfold main, try_catch. rewrite main_switch_recognised by done.
  unfold DoIt_image, mbind, M_bind. rewrite Hb.
  rewrite (write_image_Written _ _ _ f) by done.
  split; [done|]. split; [|done]. simpl. apply lookup_insert_eq.
Qed.

(** [main] returns [EXIT_SUCCESS] only when the image was built and
    written. *)
Lemma main_EXIT_SUCCESS itk args w w' :
  main zero one convert itk args w = Normal EXIT_SUCCESS w' →
  OutputScalarType_of itk args ≠ UNKNOWNCOMPONENTTYPE ∧
  ∃ built f,
    build_image zero one convert itk
      (OutputImageType_of itk args (ImageDimension_of args))
      (OutputScalarType_of itk args) args w = Normal built w ∧
    writer_Update itk built (OutputVolume args) = Written f ∧
    files w' !! OutputVolume args = Some f.
Proof.
  intros H. unfold main, try_catch in H.
  destruct (decide (OutputScalarType_of itk args = UNKNOWNCOMPONENTTYPE))
    as [HT|HT].
  { rewrite main_switch_cases, DoIt_D_unknown in H by done. done. }
  split; [done|]. rewrite main_switch_recognised in H by done.
  destruct (DoIt_image zero one convert itk _ _ args w)
    as [c w1|e w1|] eqn:E; [|done..].
  injection H as -> ->.
  apply DoIt_image_Normal in E as (_ & built & f & ? & ? & ->).
  exists built, f. repeat split; [done..|]. simpl. apply lookup_insert_eq.
Qed.

(** C7, as the code has it.  [main] never leaves by an exception.  When the
    image is built and written the exit code is 0.  An unknown scalar type
    gives a failure code and a line on the standard output, the error stream
    being left as it was.  A failing writer, and any exception raised inside
    the [try] block, gives a failure code and two lines on the error
    stream. *)
Theorem exit_status itk args w :
  let D := ImageDimension_of args in
  let T := OutputScalarType_of itk args in
  let OIT := OutputImageType_of itk args D in
  let path := OutputVolume args in
  (∀ e w', main zero one convert itk args w ≠ Raised e w') ∧
  (∀ built f,
     T ≠ UNKNOWNCOMPONENTTYPE →
     build_image zero one convert itk OIT T args w = Normal built w →
     writer_Update itk built path = Written f →
     ∃ w', main zero one convert itk args w = Normal EXIT_SUCCESS w' ∧
           files w' !! path = Some f ∧ cerr w' = cerr w) ∧
  (∀ w', main zero one convert itk args w = Normal EXIT_SUCCESS w' →
     T ≠ UNKNOWNCOMPONENTTYPE ∧
     ∃ built f,
       build_image zero one convert itk OIT T args w = Normal built w ∧
       writer_Update itk built path = Written f) ∧
  (T = UNKNOWNCOMPONENTTYPE →
     main zero one convert itk args w
     = Normal EXIT_FAILURE (to_cout "unknown component type" w)) ∧
  (∀ built e partial,
     T ≠ UNKNOWNCOMPONENTTYPE →
     build_image zero one convert itk OIT T args w = Normal built w →
     writer_Update itk built path = Failed e partial →
     ∃ w', main zero one convert itk args w = Normal EXIT_FAILURE w' ∧
           cerr w' = cerr w ++ [argv0 args +:+ ": exception caught !";
                                GetDescription e]) ∧
  (∀ e w1,
     main_switch zero one convert itk args w = Raised e w1 →
     main zero one convert itk args w
     = Normal EXIT_FAILURE
         (to_cerr (GetDescription e)
            (to_cerr (argv0 args +:+ ": exception caught !") w1))).
Proof.
  intros D T OIT path. subst D T OIT path.
  assert (∀ e w1,
     main_switch zero one convert itk args w = Raised e w1 →
     main zero one convert itk args w
     = Normal EXIT_FAILURE
         (to_cerr (GetDescription e)
            (to_cerr (argv0 args +:+ ": exception caught !") w1))) as Hcatch.
  { intros e w1 H. unfold main, try_catch. by rewrite H. }
  split; [|split; [|split; [|split; [|split]]]].
  - intros e w'. unfold main, try_catch.
    destruct (main_switch zero one convert itk args w); done.
  - intros built f HT Hb Hw. by apply (main_written itk args w built f).
  - intros w' (HT & built & f & Hb & Hw & _)%main_EXIT_SUCCESS. eauto.
  - intros HT. unfold main, try_catch.
    by rewrite main_switch_cases, DoIt_D_unknown.
  - intros built e partial HT Hb Hw.
    destruct (write_image_Failed itk args built e partial w Hw)
      as (w1 & Hw1 & Hcerr).
    exists (to_cerr (GetDescription e)
              (to_cerr (argv0 args +:+ ": exception caught !") w1)).
    split.
    + apply Hcatch. rewrite main_switch_recognised by done.
      unfold DoIt_image, mbind, M_bind. by rewrite Hb, Hw1.
    + simpl. rewrite Hcerr. by rewrite <- app_assoc.
  - done.
Qed.

(** ** Determinism *)

(** The fill stage does not depend on what the buffer holds before. *)
Lemma fill_image_buffer_irrelevant T args image b1 b2 w :
  length b1 = buffer_size image → length b2 = buffer_size image →
  region_Index (m_Region image)
  = replicate (ImageDimension (image_type image)) 0%Z →
  fill_image convert T args (with_Buffer b1 image) w
  = fill_image convert T args (with_Buffer b2 image) w.
Proof.
  intros H1 H2 Hstart.
  destruct (decide (buffer_size image = 0)) as [E|E].
  { rewrite E in *. apply nil_length_inv in H1, H2. by subst. }
  assert (0 < m_VectorLength image ∧
          0 < Z.to_nat (GetNumberOfPixels (m_Region image))) as [HL HP]
    by (pose proof (buffer_size_le image); nia).
  destruct (decide (length (FillValue args) = 0)) as [F|F].
  { assert (∀ b, set_first_pixel convert T (FillValue args)
                   (GetNumberOfComponentsPerPixel (with_Buffer b image))
                   (m_Buffer (with_Buffer b image)) = None) as Hnone.
    { intros b. unfold set_first_pixel, GetNumberOfComponentsPerPixel. simpl.
      destruct (m_VectorLength image) as [|n]; [lia|].
      apply for_loop_first_fails. unfold FillValue_at. by rewrite decide_True. }
    unfold fill_image, mbind, M_bind, defined. cbv zeta. by rewrite !Hnone. }
  destruct (decide
    (Z.to_nat (GetNumberOfPixels (m_Region image)) * m_VectorLength image
     = buffer_size image)) as [Hfit|Hover].
  2:{ assert (∀ b, length b = buffer_size image →
                fill_image convert T args (with_Buffer b image) w = Undefined)
        as Hundefined.
      { intros b Hb.
        destruct (fill_image convert T args (with_Buffer b image) w)
          as [i w'|e w'|] eqn:Efill; [| |done].
        - by apply fill_image_fits in Efill; [|by split].
        - unfold fill_image, mbind, M_bind, defined in Efill.
          cbv zeta in Efill.
          destruct (set_first_pixel _ _ _ _); [|done].
          destruct (GetPixel _ _); [|done].
          by destruct (FillBuffer _ _). }
      by rewrite !Hundefined. }
  assert (GetNumberOfPixels (m_Region image) * Z.of_nat (m_VectorLength image)
          < 2 ^ SizeValueType_bits)%Z as Hfits.
  { pose proof (buffer_size_fits image).
    pose proof (count_pixels_range (region_Size (m_Region image))).
    unfold GetNumberOfPixels in *. nia. }
  destruct (fill_image_defined T args (with_Buffer b1 image) w) as [i1 E1];
    [by split | lia | done | done |].
  destruct (fill_image_defined T args (with_Buffer b2 image) w) as [i2 E2];
    [by split | lia | done | done |].
  rewrite E1, E2. f_equal.
  apply fill_image_Normal in E1
    as (_ & Ht1 & Hv1 & Hr1 & Hs1 & Ho1 & Hd1 & Hl1 & _ & Ha1); [|by split].
  apply fill_image_Normal in E2
    as (_ & Ht2 & Hv2 & Hr2 & Hs2 & Ho2 & Hd2 & Hl2 & _ & Ha2); [|by split].
  assert (m_Buffer i1 = m_Buffer i2) as Hbuf.
  { apply list_eq. intros k. simpl in *.
    set (L := m_VectorLength image) in *.
    set (P := Z.to_nat (GetNumberOfPixels (m_Region image))) in *.
    destruct (decide (k < P * L)) as [Hk|Hk].
    - assert (k = k / L * L + k mod L) as Hdiv
        by (rewrite (Nat.div_mod_eq k L) at 1; lia).
      assert (k / L < P) by (apply Nat.Div0.div_lt_upper_bound; lia).
      assert (k mod L < L) by (apply Nat.mod_upper_bound; lia).
      rewrite Hdiv.
      destruct (Ha1 (k / L) (k mod L)) as (v1 & Hv & ->); [done..|].
      destruct (Ha2 (k / L) (k mod L)) as (v2 & Hv' & ->); [done..|].
      congruence.
    - rewrite !lookup_ge_None_2; [done | lia..]. }
  destruct i1, i2. simpl in *. congruence.
Qed.

Lemma set_geometry_with_Buffer itk args image b w :
  set_geometry itk args (with_Buffer b image) w
  = match set_geometry itk args image w with
    | Normal image' w' => Normal (with_Buffer b image') w'
    | Raised e w' => Raised e w'
    | Undefined => Undefined
    end.
Proof.
  unfold set_geometry, SetSpacing, SetOrigin, SetDirection.
  unfold mbind, M_bind, mret, M_ret, defined, itk_call. simpl.
  destruct (tabulate _ (λ i, Spacing args !! i)) as [spacing|]; [|done].
  destruct (raises itk (call_SetSpacing spacing)); [done|].
  destruct (tabulate _ (λ i, Origin args !! i)) as [origin|]; [|done].
  destruct (raises itk (call_SetOrigin origin)); [done|].
  destruct (tabulate _ (λ r, tabulate _ _)) as [direction|]; [|done].
  by destruct (raises itk (call_SetDirection direction)).
Qed.

(** The image that is built does not depend on what the memory [Allocate]
    reserves holds. *)
Lemma build_image_garbage itk garbage OIT T args w :
  build_image zero one convert (with_uninitialised garbage itk) OIT T args w
  = build_image zero one convert itk OIT T args w.
Proof.
  unfold build_image, allocate_image, Allocate. cbv zeta.
  unfold mbind, M_bind, defined.
  destruct (tabulate (ImageDimension OIT)
    (λ i, to_SizeValueType <$> Size args !! i)) as [size|]; [|done].
  set (image := SetRegions _ _).
  unfold itk_call. simpl.
  destruct (raises itk (call_Allocate (buffer_size image))); [done|].
  unfold mret, M_ret.
  change (set_geometry (with_uninitialised garbage itk) args)
    with (set_geometry itk args).
  rewrite !set_geometry_with_Buffer.
  destruct (set_geometry itk args image w) as [image' w'| |] eqn:E; [|done..].
  apply set_geometry_Normal in E as (_ & Ht & HL & Hr & _).
  assert (buffer_size image' = buffer_size image) as Hsize
    by (unfold buffer_size; by rewrite Hr, HL).
  apply fill_image_buffer_irrelevant.
  - by rewrite length_fmap, length_seq.
  - by rewrite length_fmap, length_seq.
  - rewrite Hr, Ht. unfold image, SetNumberOfComponentsPerPixel.
    destruct OIT as [[] ? ?]; simpl; by case_decide.
Qed.

Lemma DoIt_image_garbage itk garbage OIT T args w :
  DoIt_image zero one convert (with_uninitialised garbage itk) OIT T args w
  = DoIt_image zero one convert itk OIT T args w.
Proof.
  unfold DoIt_image, mbind, M_bind. by rewrite build_image_garbage.
Qed.

Lemma DoIt_D_garbage itk garbage D args n tag w :
  DoIt_D zero one convert (with_uninitialised garbage itk) D args n tag w
  = DoIt_D zero one convert itk D args n tag w.
Proof.
  unfold DoIt_D. simpl.
  destruct (GetComponentTypeFromString itk tag); [done|..];
    destruct (bool_decide (1 < n)%Z); apply DoIt_image_garbage.
Qed.

(** The builder neither reads nor changes the streams and the files. *)
Lemma world_free_bind {A B} (m : M A) (k : A → M B) :
  world_free m → (∀ a, world_free (k a)) → world_free (m ≫= k).
Proof.
  intros Hm Hk w1 w2. unfold mbind, M_bind.
  pose proof (Hm w1 w2) as E. pose proof (Hm w1 w1) as E1.
  destruct (m w1) as [a w1'| |]; rewrite E; [|done..].
  rewrite (Hk a w1 w2). rewrite (Hk a w1 w1'). by destruct (k a w1).
Qed.

Lemma world_free_defined {A} (o : option A) : world_free (defined o).
Proof. intros w1 w2. unfold defined. by destruct o. Qed.

Lemma world_free_mret {A} (a : A) : world_free (mret a : M A).
Proof. by intros w1 w2. Qed.

Lemma world_free_itk_call itk c : world_free (itk_call itk c).
Proof. intros w1 w2. unfold itk_call. by destruct (raises itk c). Qed.

Lemma build_image_world_free itk OIT T args :
  world_free (build_image zero one convert itk OIT T args).
Proof.
  unfold build_image, allocate_image, Allocate, set_geometry, SetSpacing,
    SetOrigin, SetDirection, fill_image. cbv zeta.
  repeat first
    [ apply world_free_defined | apply world_free_mret
    | apply world_free_itk_call | apply world_free_bind | intros ? ].
Qed.

Lemma build_image_world itk OIT T args w1 w2 built :
  build_image zero one convert itk OIT T args w1 = Normal built w1 →
  build_image zero one convert itk OIT T args w2 = Normal built w2.
Proof.
  intros H. rewrite (build_image_world_free itk OIT T args w1 w2).
  by rewrite H.
Qed.

(** C8. Two runs on the same command line do the same: whatever the memory
    that [Allocate] reserves holds, the builder has the same outcome, the same
    image when there is one, and [main] the same exit code, the same streams
    and the same files; and a run that follows a successful run, whatever the
    streams and the files it starts from, succeeds and leaves the same bytes
    in the output file. *)
Theorem deterministic_pipeline itk garbage args w :
  (∀ OIT T,
     build_image zero one convert (with_uninitialised garbage itk) OIT T args w
     = build_image zero one convert itk OIT T args w) ∧
  main zero one convert (with_uninitialised garbage itk) args w
  = main zero one convert itk args w ∧
  (∀ w' w2,
     main zero one convert itk args w = Normal EXIT_SUCCESS w' →
     ∃ w2',
       main zero one convert (with_uninitialised garbage itk) args w2
       = Normal EXIT_SUCCESS w2' ∧
       files w2' !! OutputVolume args = files w' !! OutputVolume args).
Proof.
  split; [|split].
  - intros OIT T. apply build_image_garbage.
  - unfold main, try_catch. rewrite !main_switch_cases.
    by rewrite DoIt_D_garbage.
  - intros w' w2 (HT & built & f & Hb & Hw & Hf)%main_EXIT_SUCCESS.
    destruct (main_written (with_uninitialised garbage itk) args w2 built f)
      as (w2' & Hmain & Hf2 & _); [done| |done|].
    + change (OutputImageType_of (with_uninitialised garbage itk) args)
        with (OutputImageType_of itk args).
      change (OutputScalarType_of (with_uninitialised garbage itk) args)
        with (OutputScalarType_of itk args).
      rewrite build_image_garbage.
      by apply (build_image_world itk _ _ args w w2).
    + exists w2'. split; [done|]. by rewrite Hf, Hf2.
Qed.

(** ** When a run is defined *)

Lemma tabulate_undefined {A} n (f : nat → option A) i :
  i < n → f i = None → tabulate n f = None.
Proof.
  intros Hi Hf. destruct (tabulate n f) as [l|] eqn:E; [|done].
  apply tabulate_Some in E as [Hlen Hl].
  destruct (lookup_lt_is_Some_2 l i) as [x Hx]; [lia|].
  rewrite <- Hl, Hf in Hx by done. done.
Qed.

Lemma for_loop_ext {St} n (body body' : nat → St → option St) s :
  (∀ i t, i < n → body i t = body' i t) →
  for_loop n body s = for_loop n body' s.
Proof.
  induction n as [|n IH]; intros H; simpl; [done|].
  rewrite IH by (intros; apply H; lia).
  destruct (for_loop n body' s) as [t|]; simpl; [apply H; lia | done].
Qed.

(** A direction matrix that was read had its [D * D] entries. *)
Lemma direction_read D (Direction : list Real) m :
  tabulate D (λ r, tabulate D (λ c, Direction !! (r * D + c))) = Some m →
  D * D ≤ length Direction.
Proof.
  intros [Hrows Hm]%tabulate_Some.
  destruct D as [|D]; [simpl; lia|].
  destruct (lookup_lt_is_Some_2 m D) as [row Hrow]; [lia|].
  specialize (Hm D). rewrite Hrow in Hm.
  apply tabulate_Some in Hm as [Hcols Hm]; [|lia].
  destruct (lookup_lt_is_Some_2 row D) as [x Hx]; [lia|].
  specialize (Hm D). rewrite Hx in Hm.
  apply lookup_lt_Some in Hm; [|lia]. nia.
Qed.

(** The image type that [DoIt<D>] selects has at least one component:
    [numberOfComponents] when it exceeds one, and one otherwise. *)
Lemma components_selected itk args D :
  components_of (OutputImageType_of itk args D) args
  = Z.to_nat (Z.max 1 (NumberOfComponents args)).
Proof.
  unfold components_of, OutputImageType_of. case_bool_decide; simpl.
  - rewrite decide_True by done. f_equal. lia.
  - f_equal. lia.
Qed.

Lemma allocate_image_safe itk OIT args w :
  ImageDimension OIT ≤ length (Size args) →
  allocate_image zero one itk OIT args w ≠ Undefined.
Proof.
  intros HD. unfold allocate_image, Allocate. cbv zeta.
  destruct (tabulate_defined (ImageDimension OIT)
    (λ i, to_SizeValueType <$> Size args !! i)) as [size Hsize].
  { intros i Hi. apply fmap_is_Some. apply lookup_lt_is_Some_2. lia. }
  unfold mbind, M_bind, defined, itk_call. rewrite Hsize.
  by destruct (raises itk _).
Qed.

Lemma set_geometry_safe itk args image w :
  let D := ImageDimension (image_type image) in
  D ≤ length (Spacing args) → D ≤ length (Origin args) →
  D * D ≤ length (Direction args) →
  set_geometry itk args image w ≠ Undefined.
Proof.
  intros D Hsp Hor Hdir.
  unfold set_geometry, SetSpacing, SetOrigin, SetDirection. fold D.
  destruct (tabulate_defined D (λ i, Spacing args !! i)) as [sp Esp].
  { intros. apply lookup_lt_is_Some_2. lia. }
  destruct (tabulate_defined D (λ i, Origin args !! i)) as [or Eor].
  { intros. apply lookup_lt_is_Some_2. lia. }
  destruct (tabulate_defined D
    (λ r, tabulate D (λ c, Direction args !! (r * D + c)))) as [dir Edir].
  { intros r Hr. apply tabulate_defined. intros c Hc.
    apply lookup_lt_is_Some_2.
    assert ((r + 1) * D ≤ D * D) by (apply Nat.mul_le_mono_r; lia). lia. }
  unfold mbind, M_bind, mret, M_ret, defined, itk_call.
  rewrite Esp, Eor. simpl. rewrite Edir.
  destruct (raises itk (call_SetSpacing sp)); [done|].
  destruct (raises itk (call_SetOrigin or)); [done|].
  by destruct (raises itk (call_SetDirection dir)).
Qed.

(** Whatever the library raises, the builder has a defined behaviour when
    everything it reads and writes is there. *)
Lemma build_image_safe itk OIT T args w :
  well_sized args (ImageDimension OIT) (components_of OIT args) →
  build_image zero one convert itk OIT T args w ≠ Undefined.
Proof.
  intros (Hsize & Hsp & Hor & Hdir & Hfv & HP & Hfit). unfold build_image.
  unfold mbind, M_bind.
  destruct (allocate_image zero one itk OIT args w) as [i1 w1| |] eqn:H1;
    [|done|by apply allocate_image_safe in H1].
  pose proof (allocate_image_allocated _ _ _ _ _ _ H1) as [Hlen Hstart].
  apply allocate_image_Normal in H1 as (-> & Htype & HL & _ & Hregion & _).
  destruct (set_geometry itk args i1 w) as [i2 w2| |] eqn:H2; [|done|].
  - apply set_geometry_Normal in H2
      as (-> & Htype2 & HL2 & Hregion2 & Hbuf2 & _).
    destruct (fill_image_defined T args i2 w) as [i3 ->]; [|done| | |done].
    + split; [by rewrite Hbuf2; unfold buffer_size; rewrite Hregion2, HL2
             | by rewrite Hregion2, Htype2].
    + rewrite Hregion2, Hregion. unfold GetNumberOfPixels. simpl.
      unfold pixels_of in HP. lia.
    + rewrite Hregion2, Hregion, HL2, HL. unfold GetNumberOfPixels. simpl.
      by unfold pixels_of in Hfit.
  - apply set_geometry_safe in H2; [done|by rewrite Htype..].
Qed.

(** What the builder has read and written when it returns an image. *)
Lemma build_image_well_sized itk OIT T args w built w' :
  0 < components_of OIT args →
  build_image zero one convert itk OIT T args w = Normal built w' →
  well_sized args (ImageDimension OIT) (components_of OIT args).
Proof.
  intros HL Hbuilt.
  pose proof Hbuilt as [Hfit _]%build_image_fits.
  apply build_image_Normal in Hbuilt
    as (_ & _ & _ & Hsize & _ & [Hsp _] & [Hor _] & Hdir & _ & Hpos & _).
  destruct (Hpos HL) as [Hfv HP]. apply direction_read in Hdir.
  unfold well_sized, pixels_of in *. split_and!; try done. lia.
Qed.

(** *** Where the builder raises *)

Lemma allocate_image_Raised itk OIT args w e w' :
  allocate_image zero one itk OIT args w = Raised e w' →
  raises itk (call_Allocate (scalars_of OIT args)) = Some e.
Proof.
  unfold allocate_image, Allocate. cbv zeta.
  unfold mbind, M_bind, defined, itk_call.
  destruct (tabulate (ImageDimension OIT)
    (λ i, to_SizeValueType <$> Size args !! i)) as [size|] eqn:Hsize; [|done].
  apply tabulate_lookup in Hsize as [_ ->].
  replace (buffer_size _) with (scalars_of OIT args).
  - destruct (raises itk _); [by intros [= -> _] | done].
  - unfold scalars_of, pixels_of, buffer_size, GetNumberOfPixels,
      components_of, SetNumberOfComponentsPerPixel.
    destruct OIT as [[] ? ?]; simpl; by case_decide.
Qed.

Lemma set_geometry_Raised itk args image w e w' :
  set_geometry itk args image w = Raised e w' →
  let D := ImageDimension (image_type image) in
  raises itk (call_SetSpacing (take D (Spacing args))) = Some e ∨
  raises itk (call_SetOrigin (take D (Origin args))) = Some e ∨
  ∃ direction,
    tabulate D (λ r, tabulate D (λ c, Direction args !! (r * D + c)))
    = Some direction ∧
    raises itk (call_SetDirection direction) = Some e.
Proof.
  unfold set_geometry, SetSpacing, SetOrigin, SetDirection. cbv zeta.
  unfold mbind, M_bind, mret, M_ret, defined, itk_call. simpl.
  destruct (tabulate _ (λ i, Spacing args !! i)) as [spacing|] eqn:Esp;
    [|done].
  apply tabulate_take in Esp as [_ ->].
  destruct (raises itk (call_SetSpacing _)) as [e1|]; [intros [= -> _]; by left|].
  destruct (tabulate _ (λ i, Origin args !! i)) as [origin|] eqn:Eor; [|done].
  apply tabulate_take in Eor as [_ ->].
  destruct (raises itk (call_SetOrigin _)) as [e2|];
    [intros [= -> _]; right; by left|].
  destruct (tabulate _ (λ r, tabulate _ _)) as [direction|] eqn:Edir; [|done].
  destruct (raises itk (call_SetDirection direction)) as [e3|] eqn:Eraise;
    [|done].
  intros [= -> _]. right. right. by exists direction.
Qed.

Lemma fill_image_never_raises T args image :
  never_raises (fill_image convert T args image).
Proof.
  intros w e w'. unfold fill_image, mbind, M_bind, defined. cbv zeta.
  destruct (set_first_pixel _ _ _ _); [|done].
  destruct (GetPixel _ _); [|done].
  by destruct (FillBuffer _ _).
Qed.

(** The builder raises only what the library raises at one of the four calls
    it makes. *)
Lemma build_image_accepts itk OIT T args :
  library_accepts itk OIT args →
  never_raises (build_image zero one convert itk OIT T args).
Proof.
  intros (Hra & Hrsp & Hror & Hrdir) w e w'.
  unfold build_image, mbind, M_bind.
  destruct (allocate_image zero one itk OIT args w) as [i1 w1|e1 w1|] eqn:H1;
    [| |done].
  2:{ apply allocate_image_Raised in H1. congruence. }
  apply allocate_image_Normal in H1 as (-> & Htype & _).
  destruct (set_geometry itk args i1 w) as [i2 w2|e2 w2|] eqn:H2; [| |done].
  - apply fill_image_never_raises.
  - apply set_geometry_Raised in H2. rewrite Htype in H2.
    destruct H2 as [H2|[H2|(direction & Hdir & H2)]]; [congruence..|].
    rewrite (Hrdir direction Hdir) in H2. done.
Qed.

(** A library that raises nothing raises at none of the calls of the
    builder. *)
Lemma quiet_library_accepts itk OIT args :
  quiet itk → library_accepts itk OIT args.
Proof. intros Hquiet. split_and!; [done..|]. by intros direction _. Qed.

(** [main] returns whenever the builder has a defined behaviour. *)
Lemma main_returns itk args w :
  OutputScalarType_of itk args = UNKNOWNCOMPONENTTYPE ∨
  build_image zero one convert itk
    (OutputImageType_of itk args (ImageDimension_of args))
    (OutputScalarType_of itk args) args w ≠ Undefined →
  ∃ c w', main zero one convert itk args w = Normal c w' ∧
          (c = EXIT_SUCCESS ∨ c = EXIT_FAILURE).
Proof.
  unfold main, try_catch.
  destruct (decide (OutputScalarType_of itk args = UNKNOWNCOMPONENTTYPE))
    as [HT|HT].
  { intros _. rewrite main_switch_cases, DoIt_D_unknown by done. eauto. }
  intros [?|Hb]; [done|]. rewrite main_switch_recognised by done.
  unfold DoIt_image, mbind, M_bind.
  destruct (build_image zero one convert itk _ _ args w) as [built w1|e w1|];
    [|by eauto|done].
  unfold write_image.
  destruct (writer_Update itk built (OutputVolume args)) as [f|e [f|]];
    by eauto.
Qed.

(** X1. When everything the run reads and writes is there (every vector has
    its entries for the dimension, there is a fill value, the region, counted
    in 64 bits, has a pixel, and the number of scalars fits the 64-bit count)
    [main] returns, with [EXIT_SUCCESS] or [EXIT_FAILURE], whatever the
    scalar type is and whatever the library raises: no access is out of
    range. *)
Theorem defined_run itk args w :
  well_sized args (ImageDimension_of args)
    (Z.to_nat (Z.max 1 (NumberOfComponents args))) →
  ∃ c w', main zero one convert itk args w = Normal c w' ∧
          (c = EXIT_SUCCESS ∨ c = EXIT_FAILURE).
Proof.
  intros Hws. apply main_returns. right. apply build_image_safe.
  by rewrite OutputImageType_of_dimension, components_selected.
Qed.

(** X3. With a known scalar type and a library that raises at none of the
    four calls the builder makes, the run has no defined behaviour exactly
    when something it reads or writes is missing: a vector shorter than the
    dimension asks (read out of range), no fill value (remainder by zero), a
    region without a pixel (the first pixel is written outside the buffer),
    or a number of scalars that wraps in 64 bits (the buffer is shorter than
    the region that is filled). *)
Theorem undefined_run itk args w :
  library_accepts itk
    (OutputImageType_of itk args (ImageDimension_of args)) args →
  OutputScalarType_of itk args ≠ UNKNOWNCOMPONENTTYPE →
  main zero one convert itk args w = Undefined
  ↔ ¬ well_sized args (ImageDimension_of args)
        (Z.to_nat (Z.max 1 (NumberOfComponents args))).
Proof.
  intros Haccepts HT. split.
  - intros Hmain Hws.
    destruct (main_returns itk args w) as (c & w' & Hret & _); [|congruence].
    right. apply build_image_safe.
    by rewrite OutputImageType_of_dimension, components_selected.
  - intros Hws. unfold main, try_catch.
    rewrite main_switch_recognised by done.
    unfold DoIt_image, mbind, M_bind.
    destruct (build_image zero one convert itk _ _ args w)
      as [built w1|e w1|] eqn:Hb; [| |done].
    + exfalso. apply Hws. apply build_image_well_sized in Hb.
      * by rewrite OutputImageType_of_dimension, components_selected in Hb.
      * rewrite components_selected. lia.
    + by apply build_image_accepts in Hb.
Qed.

(** ** What a run reads *)

(** [main] has the same outcome on two command lines that agree outside the
    vectors and on which the builder does the same. *)
Lemma main_ext itk args args' w :
  argv0 args = argv0 args' → Dimension args = Dimension args' →
  NumberOfComponents args = NumberOfComponents args' →
  ScalarType args = ScalarType args' →
  OutputVolume args = OutputVolume args' →
  (∀ T, build_image zero one convert itk
          (OutputImageType_of itk args (ImageDimension_of args)) T args w
        = build_image zero one convert itk
          (OutputImageType_of itk args (ImageDimension_of args)) T args' w) →
  main zero one convert itk args w = main zero one convert itk args' w.
Proof.
  intros Hargv Hdim Hn Htag Hout Hbuild.
  unfold main, try_catch. rewrite !main_switch_cases.
  replace (ImageDimension_of args') with (ImageDimension_of args)
    by (unfold ImageDimension_of; by rewrite Hdim).
  rewrite <- Hn, <- Htag, <- Hargv.
  destruct (decide (GetComponentTypeFromString itk (ScalarType args)
                    = UNKNOWNCOMPONENTTYPE)) as [HT|HT].
  { by rewrite !DoIt_D_unknown. }
  rewrite !DoIt_D_recognised by done.
  unfold OutputImageType_of, OutputScalarType_of in Hbuild.
  unfold DoIt_image, mbind, M_bind. rewrite Hbuild.
  destruct (build_image zero one convert itk _ _ args' w)
    as [built w1|e w1|]; [|done..].
  unfold write_image. by rewrite Hout.
Qed.

Lemma tabulate_take_ext {A B} n (g : A → B) (v v' : list A) :
  take n v = take n v' →
  tabulate n (λ i, g <$> v !! i) = tabulate n (λ i, g <$> v' !! i).
Proof.
  intros H. apply tabulate_ext. intros i Hi.
  by rewrite <- (lookup_take_lt v n i), H, lookup_take_lt.
Qed.

Lemma build_image_same_input itk OIT T args args' w :
  same_input (ImageDimension OIT) args args' →
  build_image zero one convert itk OIT T args w
  = build_image zero one convert itk OIT T args' w.
Proof.
  intros (_ & _ & Hn & _ & _ & Hfv & Hsize & Hsp & Hor & Hdir).
  assert (allocate_image zero one itk OIT args w
          = allocate_image zero one itk OIT args' w) as Halloc.
  { unfold allocate_image. cbv zeta. rewrite Hn.
    by rewrite (tabulate_take_ext _ to_SizeValueType _ _ Hsize). }
  unfold build_image, mbind, M_bind. rewrite Halloc.
  destruct (allocate_image zero one itk OIT args' w)
    as [i1 w1| |] eqn:H1; [|done..].
  apply allocate_image_Normal in H1 as (_ & Htype & _).
  assert (set_geometry itk args i1 w1 = set_geometry itk args' i1 w1) as Hgeo.
  { unfold set_geometry. cbv zeta. rewrite Htype.
    rewrite (tabulate_ext _ (λ i, Spacing args !! i) (λ i, Spacing args' !! i)).
    2:{ intros i Hi.
        by rewrite <- (lookup_take_lt (Spacing args) (ImageDimension OIT) i),
          Hsp, lookup_take_lt. }
    rewrite (tabulate_ext _ (λ i, Origin args !! i) (λ i, Origin args' !! i)).
    2:{ intros i Hi.
        by rewrite <- (lookup_take_lt (Origin args) (ImageDimension OIT) i),
          Hor, lookup_take_lt. }
    rewrite (tabulate_ext _
      (λ r, tabulate (ImageDimension OIT)
              (λ c, Direction args !! (r * ImageDimension OIT + c)))
      (λ r, tabulate (ImageDimension OIT)
              (λ c, Direction args' !! (r * ImageDimension OIT + c)))).
    2:{ intros r Hr. apply tabulate_ext. intros c Hc.
        assert (r * ImageDimension OIT + c
                < ImageDimension OIT * ImageDimension OIT) as Hrc.
        { assert ((r + 1) * ImageDimension OIT
                  ≤ ImageDimension OIT * ImageDimension OIT)
            by (apply Nat.mul_le_mono_r; lia). lia. }
        by rewrite <- (lookup_take_lt (Direction args) _ _ Hrc), Hdir,
          lookup_take_lt. }
    done. }
  rewrite Hgeo. destruct (set_geometry itk args' i1 w1); [|done..].
  unfold fill_image. by rewrite Hfv.
Qed.

(** X4. The run reads the first [dimension] entries of the size, the spacing
    and the origin and the first [dimension * dimension] entries of the
    direction (row [r] starts at entry [r * dimension], whatever the length of
    the vector); two command lines that differ in the other entries only
    give the same outcome of [main]. *)
Theorem unread_entries itk args args' w :
  same_input (ImageDimension_of args) args args' →
  main zero one convert itk args w = main zero one convert itk args' w.
Proof.
  intros Hsame. pose proof Hsame as (? & ? & ? & ? & ? & _).
  apply main_ext; try done.
  intros T. apply build_image_same_input.
  by rewrite OutputImageType_of_dimension.
Qed.

(** X5. When the builder leaves by an exception (raised by [Allocate],
    [SetSpacing], [SetOrigin] or [SetDirection]) on a known scalar type,
    [main] returns [EXIT_FAILURE]; the error stream receives the two lines of
    the [catch] block, and the standard output and the files are those of
    before: the writer has not run. *)
Theorem builder_failure itk args w e w1 :
  OutputScalarType_of itk args ≠ UNKNOWNCOMPONENTTYPE →
  build_image zero one convert itk
    (OutputImageType_of itk args (ImageDimension_of args))
    (OutputScalarType_of itk args) args w = Raised e w1 →
  main zero one convert itk args w
  = Normal EXIT_FAILURE
      (to_cerr (GetDescription e)
         (to_cerr (argv0 args +:+ ": exception caught !") w)).
Proof.
  intros HT Hb.
  pose proof (build_image_world_free itk
    (OutputImageType_of itk args (ImageDimension_of args))
    (OutputScalarType_of itk args) args w w) as Hw.
  rewrite Hb in Hw. injection Hw as ->.
  unfold main, try_catch. rewrite main_switch_recognised by done.
  unfold DoIt_image, mbind, M_bind. by rewrite Hb.
Qed.

(** The builder depends on the fill values through those the loop reads. *)
Lemma build_image_fill_ext itk OIT T args fv w :
  (∀ c, c < components_of OIT args →
        FillValue_at fv c = FillValue_at (FillValue args) c) →
  build_image zero one convert itk OIT T (set_FillValue fv args) w
  = build_image zero one convert itk OIT T args w.
Proof.
  intros Hfv. unfold build_image, mbind, M_bind.
  change (allocate_image zero one itk OIT (set_FillValue fv args) w)
    with (allocate_image zero one itk OIT args w).
  destruct (allocate_image zero one itk OIT args w)
    as [i1 w1| |] eqn:H1; [|done..].
  apply allocate_image_Normal in H1 as (_ & _ & HL & _).
  change (set_geometry itk (set_FillValue fv args) i1 w1)
    with (set_geometry itk args i1 w1).
  destruct (set_geometry itk args i1 w1) as [i2 w2| |] eqn:H2; [|done..].
  apply set_geometry_Normal in H2 as (_ & _ & HL2 & _).
  unfold fill_image, set_first_pixel, GetNumberOfComponentsPerPixel. simpl.
  rewrite (for_loop_ext _
    (λ c pixel, v ← FillValue_at fv c; store pixel c (convert T v))
    (λ c pixel, v ← FillValue_at (FillValue args) c;
                store pixel c (convert T v))); [done|].
  intros c t Hc. rewrite Hfv; [done|]. by rewrite <- HL, <- HL2.
Qed.

Lemma FillValue_at_take fv n c :
  c < n → n ≤ length fv → FillValue_at (take n fv) c = FillValue_at fv c.
Proof.
  intros Hc Hn. unfold FillValue_at. rewrite length_take, Nat.min_l by done.
  rewrite !decide_False by lia.
  rewrite !Nat.mod_small by lia. by apply lookup_take_lt.
Qed.

Lemma FillValue_at_twice fv c :
  FillValue_at (fv ++ fv) c = FillValue_at fv c.
Proof.
  unfold FillValue_at. rewrite length_app.
  destruct (decide (length fv = 0)) as [E|E].
  { by rewrite decide_True by lia. }
  rewrite decide_False by lia.
  replace (length fv + length fv) with (length fv * 2) by lia.
  rewrite Nat.Div0.mod_mul_r.
  assert (c mod length fv < length fv) by (apply Nat.mod_upper_bound; lia).
  assert (c / length fv mod 2 < 2) as Hb by (apply Nat.mod_upper_bound; lia).
  destruct (c / length fv mod 2) as [|[|b]]; [| |lia].
  - rewrite Nat.mul_0_r, Nat.add_0_r. by apply lookup_app_l.
  - rewrite lookup_app_r by lia. f_equal. lia.
Qed.

(** X6. The run reads the fill values of index [c mod len] for the
    components [c] of one pixel and no other: dropping the fill values beyond
    the number of components, or writing the list of fill values twice, gives
    the same outcome of [main]. *)
Theorem fill_values_read itk args w :
  let fv := FillValue args in
  let n := Z.to_nat (Z.max 1 (NumberOfComponents args)) in
  (n ≤ length fv →
   main zero one convert itk (set_FillValue (take n fv) args) w
   = main zero one convert itk args w) ∧
  main zero one convert itk (set_FillValue (fv ++ fv) args) w
  = main zero one convert itk args w.
Proof.
  intros fv n.
  assert (∀ fv',
    (∀ c, c < n → FillValue_at fv' c = FillValue_at fv c) →
    main zero one convert itk (set_FillValue fv' args) w
    = main zero one convert itk args w) as Hmain.
  { intros fv' Hfv. symmetry. apply main_ext; try done.
    intros T. symmetry. apply build_image_fill_ext.
    intros c Hc. apply Hfv. by rewrite components_selected in Hc. }
  split.
  - intros Hn. apply Hmain. intros c Hc. by apply FillValue_at_take.
  - apply Hmain. intros c _. apply FillValue_at_twice.
Qed.

(** X7. With a single fill value, every scalar of the image that is built is
    that value, converted: the buffer is constant. *)
Theorem single_fill_value itk OIT T args v w built w' :
  FillValue args = [v] →
  build_image zero one convert itk OIT T args w = Normal built w' →
  m_Buffer built = replicate (length (m_Buffer built)) (convert T v).
Proof.
  intros Hfv (_ & _ & _ & _ & _ & _ & _ & _ & Hlen & _ & Hall)%build_image_Normal.
  set (L := components_of OIT args) in *.
  set (P := Z.to_nat (count_pixels (to_SizeValueType <$>
                take (ImageDimension OIT) (Size args)))) in *.
  apply list_eq. intros k.
  destruct (decide (k < P * L)) as [Hk|Hk].
  - assert (0 < L) by nia.
    assert (k = k / L * L + k mod L) as Hdiv
      by (rewrite (Nat.div_mod_eq k L) at 1; lia).
    assert (k / L < P) by (apply Nat.Div0.div_lt_upper_bound; lia).
    assert (k mod L < L) by (apply Nat.mod_upper_bound; lia).
    rewrite lookup_replicate_2 by lia. rewrite Hdiv.
    destruct (Hall (k / L) (k mod L)) as (v' & [_ Hv]%FillValue_at_Some & ->);
      [done..|].
    rewrite Hfv in Hv. by apply list_lookup_singleton_Some in Hv as [_ ->].
  - rewrite !lookup_ge_None_2; [done| |lia].
    rewrite length_replicate. lia.
Qed.

(** X8. Whatever the lengths of the vectors of the command line, the image
    that is built has the first [D] sizes, spacings and origin coordinates,
    and its direction has [D] rows whose entry [c] of row [r] is the entry
    [r * D + c] of the flattened direction: with a vector written for a larger
    dimension, the rows are cut with stride [D]. *)
Theorem geometry_read itk OIT T args w built w' :
  build_image zero one convert itk OIT T args w = Normal built w' →
  let D := ImageDimension OIT in
  region_Size (m_Region built) = to_SizeValueType <$> take D (Size args) ∧
  m_Spacing built = take D (Spacing args) ∧
  m_Origin built = take D (Origin args) ∧
  length (m_Direction built) = D ∧
  ∀ r c, r < D → c < D →
    is_Some (Direction args !! (r * D + c)) ∧
    entry (m_Direction built) r c = Direction args !! (r * D + c).
Proof.
  intros (_ & _ & _ & _ & Hregion & [_ Hsp] & [_ Hor] & Hdir & _)%build_image_Normal.
  pose proof (direction_read _ _ _ Hdir) as Hlen.
  apply tabulate_Some in Hdir as [Hrows Hdir].
  rewrite Hregion. split; [done|]. split; [done|]. split; [done|].
  split; [done|]. intros r c Hr Hc. split.
  - apply lookup_lt_is_Some_2.
    assert ((r + 1) * ImageDimension OIT
            ≤ ImageDimension OIT * ImageDimension OIT)
      by (apply Nat.mul_le_mono_r; lia). lia.
  - specialize (Hdir r Hr).
    destruct (m_Direction built !! r) as [row|] eqn:Hrow.
    + apply tabulate_Some in Hdir as [_ Hcols].
      unfold entry. rewrite Hrow. simpl. symmetry. by apply Hcols.
    + apply lookup_ge_None in Hrow. lia.
Qed.

End Properties.

(** * The examples, run *)

(** dimension 3, uchar, one component, 10 x 10 x 10, fill value 255: the
    image has 1000 voxels, all 255, and the file holds them. *)
Example run_uchar :
  ∃ built w',
    Sample.build (Image_of UCHAR 3) UCHAR Sample.args_uchar Sample.world0
    = Normal built Sample.world0 ∧
    m_Buffer built = replicate 1000 255%Z ∧
    Sample.run Sample.args_uchar Sample.world0 = Normal EXIT_SUCCESS w' ∧
    files w' !! "out.mha" = Some (replicate 1000 Byte.xff).
Proof. do 2 eexists. vm_compute. done. Qed.

(** three components, fill values 10 and 20: every pixel is 10, 20, 10. *)
Example run_rgb :
  ∃ built,
    Sample.build (VectorImage_of SHORT 2) SHORT Sample.args_rgb Sample.world0
    = Normal built Sample.world0 ∧
    m_Buffer built = [10; 20; 10; 10; 20; 10; 10; 20; 10; 10; 20; 10]%Z ∧
    m_Spacing built = [1 # 2; 1 # 2]%Q ∧ m_Origin built = [0; 5]%Q ∧
    m_Direction built = [[0; 1]; [1; 0]]%Q.
Proof. eexists. vm_compute. done. Qed.

(** scalar type "bogus": a failure code, one line on the standard output,
    nothing on the error stream, no file. *)
Example run_bogus :
  Sample.run Sample.args_bogus Sample.world0
  = Normal EXIT_FAILURE
      {| cout := ["unknown component type"]; cerr := []; files := ∅ |}.
Proof. vm_compute. done. Qed.

(** a writer that fails: a failure code and two lines on the error stream. *)
Example run_refused :
  Sample.run_refusing Sample.args_rgb Sample.world0
  = Normal EXIT_FAILURE
      {| cout := [];
         cerr := ["ImageMaker: exception caught !";
                  "no ImageIO for this file name"];
         files := ∅ |}.
Proof. vm_compute. done. Qed.

(** an extent of zero: the first pixel is written outside the buffer. *)
Example run_empty : Sample.run Sample.args_empty Sample.world0 = Undefined.
Proof. vm_compute. done. Qed.

(** A tag outside the ten of the table is unknown. *)
Lemma component_type_of_tag_unknown tag :
  tag ∉ ["uchar"; "char"; "ushort"; "short"; "uint"; "int"; "ulong"; "long";
         "float"; "double"] →
  Sample.component_type_of_tag tag = UNKNOWNCOMPONENTTYPE.
Proof.
  intros H. unfold Sample.component_type_of_tag.
  repeat match goal with
    | |- context [String.eqb tag ?t] =>
        destruct (String.eqb_spec tag t) as [->|_];
          [exfalso; apply H; set_solver|]
    end.
  done.
Qed.

(** * The theorems at the examples *)

Lemma valid_args_rgb : valid_configuration Sample.itk Sample.args_rgb 2.
Proof.
  split; [split|..]; simpl; try lia.
  - vm_compute. discriminate.
  - split; [reflexivity|]. repeat constructor; vm_compute; discriminate.
Qed.



Lemma valid_args_huge : valid_configuration Sample.itk Sample.args_huge 3.
Proof.
  split; [split|..]; simpl; try lia.
  - vm_compute. discriminate.
  - split; [reflexivity|]. repeat constructor; vm_compute; discriminate.
Qed.

Lemma valid_args_wrapped :
  valid_configuration Sample.itk Sample.args_wrapped 3.
Proof.
  split; [split|..]; simpl; try lia.
  - vm_compute. discriminate.
  - split; [reflexivity|]. repeat constructor; vm_compute; discriminate.
Qed.

(** Two valid configurations of one component on which the library grants
    the memory it is asked for.  With 49477 x 384773 x 968973220 voxels,
    2^64 + 4 of them, the count wraps to 4: the image is built, its region
    has the extents of the command line, and its buffer holds 4 scalars.
    With 2^22 x 2^21 x 2^21 voxels, 2^64 of them, the count wraps to 0: the
    buffer that is allocated has no scalar, and the builder goes on to write
    the first pixel outside it. *)
Lemma scalar_count_wraps :
  (valid_configuration Sample.itk Sample.args_wrapped 3 ∧
   raises Sample.itk (call_Allocate
     (Z.to_nat (NumberOfComponents Sample.args_wrapped
                * product (Size Sample.args_wrapped)))) = None ∧
   (NumberOfComponents Sample.args_wrapped
    * product (Size Sample.args_wrapped) = 2 ^ 64 + 4)%Z ∧
   ∃ built,
     Sample.build (OutputImageType_of Sample.itk Sample.args_wrapped 3)
       (OutputScalarType_of Sample.itk Sample.args_wrapped)
       Sample.args_wrapped Sample.world0 = Normal built Sample.world0 ∧
     region_Size (m_Region built) = Size Sample.args_wrapped ∧
     m_Buffer built = [255; 255; 255; 255]%Z) ∧
  (valid_configuration Sample.itk Sample.args_huge 3 ∧
   raises Sample.itk (call_Allocate
     (Z.to_nat (NumberOfComponents Sample.args_huge
                * product (Size Sample.args_huge)))) = None ∧
   (NumberOfComponents Sample.args_huge * product (Size Sample.args_huge)
    = 2 ^ 64)%Z ∧
   (∃ image,
      allocate_image 0%Q 1%Q Sample.itk
        (OutputImageType_of Sample.itk Sample.args_huge 3) Sample.args_huge
        Sample.world0 = Normal image Sample.world0 ∧
      region_Size (m_Region image) = Size Sample.args_huge ∧
      Z.of_nat (length (m_Buffer image)) = 0%Z) ∧
   Sample.build (OutputImageType_of Sample.itk Sample.args_huge 3)
     (OutputScalarType_of Sample.itk Sample.args_huge) Sample.args_huge
     Sample.world0 = Undefined).
Proof.
  split.
  - split; [exact valid_args_wrapped|]. split; [reflexivity|].
    split; [reflexivity|].
    eexists. split; [vm_compute; reflexivity|]. split; reflexivity.
  - split; [exact valid_args_huge|]. split; [reflexivity|].
    split; [reflexivity|]. split.
    + eexists. split; [vm_compute; reflexivity|]. split; reflexivity.
    + vm_compute. reflexivity.
Qed.

Lemma region_and_buffer_witness :
  valid_configuration Sample.itk Sample.args_rgb 2 ∧
  (NumberOfComponents Sample.args_rgb * product (Size Sample.args_rgb)
   < 2 ^ SizeValueType_bits)%Z ∧
  ∃ image,
    allocate_image 0%Q 1%Q Sample.itk (VectorImage_of SHORT 2)
      Sample.args_rgb Sample.world0 = Normal image Sample.world0 ∧
    region_Size (m_Region image) = [2; 2]%Z ∧
    region_Index (m_Region image) = [0; 0]%Z ∧
    Z.of_nat (length (m_Buffer image)) = 12%Z ∧
    ∀ built w',
      Sample.build (VectorImage_of SHORT 2) SHORT Sample.args_rgb
        Sample.world0 = Normal built w' →
      m_Region built = m_Region image ∧
      length (m_Buffer built) = length (m_Buffer image).
Proof.
  split; [exact valid_args_rgb|]. split; [reflexivity|].
  exact (region_and_buffer 0%Q 1%Q Sample.convert Sample.itk
           Sample.args_rgb 2 Sample.world0 valid_args_rgb eq_refl eq_refl).
Defined.

Lemma component_count_routing_witness :
  Sample.component_type_of_tag "short" ≠ UNKNOWNCOMPONENTTYPE ∧
  DoIt_D 0%Q 1%Q Sample.convert Sample.itk 2 Sample.args_rgb 3 "short"
    Sample.world0
  = DoIt_image 0%Q 1%Q Sample.convert Sample.itk (VectorImage_of SHORT 2)
      SHORT Sample.args_rgb Sample.world0.
Proof.
  assert (Sample.component_type_of_tag "short" ≠ UNKNOWNCOMPONENTTYPE) as H
    by (vm_compute; discriminate).
  split; [exact H|].
  apply (proj1 (component_count_routing 0%Q 1%Q Sample.convert Sample.itk 2
                  Sample.args_rgb 3 "short" Sample.world0 H)).
  lia.
Defined.

Lemma unknown_scalar_type_witness :
  Sample.component_type_of_tag "bogus" = UNKNOWNCOMPONENTTYPE ∧
  DoIt_D 0%Q 1%Q Sample.convert Sample.itk 3 Sample.args_bogus 1 "bogus"
    Sample.world0
  = Normal EXIT_FAILURE (to_cout "unknown component type" Sample.world0).
Proof.
  split; [reflexivity|].
  exact (proj1 (unknown_scalar_type 0%Q 1%Q Sample.convert Sample.itk 3
                  Sample.args_bogus 1 "bogus" Sample.world0 eq_refl)).
Defined.

Lemma geometry_verbatim_witness :
  ∃ built,
    Sample.build (VectorImage_of SHORT 2) SHORT Sample.args_rgb Sample.world0
    = Normal built Sample.world0 ∧
    m_Spacing built = [1 # 2; 1 # 2]%Q ∧
    m_Origin built = [0; 5]%Q ∧
    length (m_Direction built) = 2 ∧
    ∀ r c, r < 2 → c < 2 →
      ∃ x, [0; 1; 1; 0]%Q !! (r * 2 + c) = Some x ∧
           entry (m_Direction built) r c = Some x.
Proof.
  eexists.
  refine (let H := _ in
          conj H (geometry_verbatim 0%Q 1%Q Sample.convert Sample.itk
                    Sample.args_rgb 2 Sample.world0 _ Sample.world0
                    valid_args_rgb H)).
  vm_compute. reflexivity.
Defined.

Lemma library_accepts_itk_limited OIT (args : Args Q Z) :
  scalars_of OIT args ≤ 4096 →
  library_accepts Sample.itk_limited OIT args.
Proof.
  intros Hscalars. split_and!; [|reflexivity..|].
  - simpl. by rewrite decide_False by lia.
  - intros direction _. reflexivity.
Qed.


(** The run on the scalar type "bogus" is a resolver error: the exit code
    is a failure, the diagnostic is on the standard output and the error
    stream has received nothing. *)
Lemma resolver_diagnostic_on_cout :
  OutputScalarType_of Sample.itk Sample.args_bogus = UNKNOWNCOMPONENTTYPE ∧
  ∃ w', Sample.run Sample.args_bogus Sample.world0
        = Normal EXIT_FAILURE w' ∧
        cout w' = ["unknown component type"] ∧
        cerr w' = cerr Sample.world0 ∧ cerr w' = [].
Proof. split; [reflexivity|]. eexists. vm_compute. done. Qed.

(** * The further theorems at the examples *)

Lemma well_sized_args_rgb :
  well_sized Sample.args_rgb (ImageDimension_of Sample.args_rgb)
    (Z.to_nat (Z.max 1 (NumberOfComponents Sample.args_rgb))).
Proof. repeat split; vm_compute; first [reflexivity | lia]. Qed.

Lemma defined_run_witness :
  well_sized Sample.args_rgb (ImageDimension_of Sample.args_rgb)
    (Z.to_nat (Z.max 1 (NumberOfComponents Sample.args_rgb))) ∧
  ∃ c w',
    main 0%Q 1%Q Sample.convert Sample.itk_no_memory Sample.args_rgb
      Sample.world0 = Normal c w' ∧
    (c = EXIT_SUCCESS ∨ c = EXIT_FAILURE).
Proof.
  split; [exact well_sized_args_rgb|].
  exact (defined_run 0%Q 1%Q Sample.convert Sample.itk_no_memory
           Sample.args_rgb Sample.world0 well_sized_args_rgb).
Defined.

(** On 2^22 x 2^21 x 2^21 voxels, with a library that grants the 0 scalars it
    is asked for, the run has no defined behaviour. *)
Lemma undefined_run_witness :
  library_accepts Sample.itk_limited
    (OutputImageType_of Sample.itk_limited Sample.args_huge
       (ImageDimension_of Sample.args_huge)) Sample.args_huge ∧
  OutputScalarType_of Sample.itk_limited Sample.args_huge
  ≠ UNKNOWNCOMPONENTTYPE ∧
  ¬ well_sized Sample.args_huge (ImageDimension_of Sample.args_huge)
      (Z.to_nat (Z.max 1 (NumberOfComponents Sample.args_huge))) ∧
  main 0%Q 1%Q Sample.convert Sample.itk_limited Sample.args_huge
    Sample.world0 = Undefined.
Proof.
  assert (library_accepts Sample.itk_limited
    (OutputImageType_of Sample.itk_limited Sample.args_huge
       (ImageDimension_of Sample.args_huge)) Sample.args_huge) as Haccepts
    by (apply library_accepts_itk_limited; vm_compute; lia).
  assert (OutputScalarType_of Sample.itk_limited Sample.args_huge
          ≠ UNKNOWNCOMPONENTTYPE) as HT by (vm_compute; discriminate).
  assert (¬ well_sized Sample.args_huge (ImageDimension_of Sample.args_huge)
            (Z.to_nat (Z.max 1 (NumberOfComponents Sample.args_huge))))
    as Hws.
  { intros (_ & _ & _ & _ & _ & HP & _). vm_compute in HP. discriminate. }
  split; [exact Haccepts|]. split; [exact HT|]. split; [exact Hws|].
  exact (proj2 (undefined_run 0%Q 1%Q Sample.convert Sample.itk_limited
                  Sample.args_huge Sample.world0 Haccepts HT) Hws).
Defined.

Lemma same_input_args_rgb_long :
  same_input (ImageDimension_of Sample.args_rgb_long)
    Sample.args_rgb_long Sample.args_rgb.
Proof. repeat split. Qed.

Lemma unread_entries_witness :
  same_input (ImageDimension_of Sample.args_rgb_long)
    Sample.args_rgb_long Sample.args_rgb ∧
  main 0%Q 1%Q Sample.convert Sample.itk Sample.args_rgb_long Sample.world0
  = main 0%Q 1%Q Sample.convert Sample.itk Sample.args_rgb Sample.world0.
Proof.
  split; [exact same_input_args_rgb_long|].
  exact (unread_entries 0%Q 1%Q Sample.convert Sample.itk
           Sample.args_rgb_long Sample.args_rgb Sample.world0
           same_input_args_rgb_long).
Defined.

Lemma builder_failure_witness :
  OutputScalarType_of Sample.itk_no_memory Sample.args_rgb
  ≠ UNKNOWNCOMPONENTTYPE ∧
  build_image 0%Q 1%Q Sample.convert Sample.itk_no_memory
    (VectorImage_of SHORT 2) SHORT Sample.args_rgb Sample.world0
  = Raised {| GetDescription := "Failed to allocate memory for image." |}
      Sample.world0 ∧
  main 0%Q 1%Q Sample.convert Sample.itk_no_memory Sample.args_rgb
    Sample.world0
  = Normal EXIT_FAILURE
      {| cout := [];
         cerr := ["ImageMaker: exception caught !";
                  "Failed to allocate memory for image."];
         files := ∅ |}.
Proof.
  assert (OutputScalarType_of Sample.itk_no_memory Sample.args_rgb
          ≠ UNKNOWNCOMPONENTTYPE) as HT by (vm_compute; discriminate).
  split; [exact HT|].
  refine (let H := _ in
          conj H (builder_failure 0%Q 1%Q Sample.convert Sample.itk_no_memory
                    Sample.args_rgb Sample.world0 _ Sample.world0 HT H)).
  vm_compute. reflexivity.
Defined.

Lemma single_fill_value_witness :
  FillValue Sample.args_uchar = [255%Z] ∧
  ∃ built,
    Sample.build (Image_of UCHAR 3) UCHAR Sample.args_uchar Sample.world0
    = Normal built Sample.world0 ∧
    m_Buffer built
    = replicate (length (m_Buffer built)) (Sample.convert UCHAR 255).
Proof.
  split; [reflexivity|]. eexists.
  refine (let H := _ in
          conj H (single_fill_value 0%Q 1%Q Sample.convert Sample.itk
                    (Image_of UCHAR 3) UCHAR Sample.args_uchar 255%Z
                    Sample.world0 _ Sample.world0 eq_refl H)).
  vm_compute. reflexivity.
Defined.

Lemma geometry_read_witness :
  ∃ built,
    Sample.build (VectorImage_of SHORT 2) SHORT Sample.args_rgb_long
      Sample.world0 = Normal built Sample.world0 ∧
    region_Size (m_Region built) = [2; 2]%Z ∧
    m_Spacing built = [1 # 2; 1 # 2]%Q ∧
    m_Origin built = [0; 5]%Q ∧
    length (m_Direction built) = 2 ∧
    ∀ r c, r < 2 → c < 2 →
      is_Some ([0; 1; 1; 0; 1; 0; 0; 0; 1]%Q !! (r * 2 + c)) ∧
      entry (m_Direction built) r c
      = [0; 1; 1; 0; 1; 0; 0; 0; 1]%Q !! (r * 2 + c).
Proof.
  eexists.
  refine (let H := _ in
          conj H (geometry_read 0%Q 1%Q Sample.convert Sample.itk
                    (VectorImage_of SHORT 2) SHORT Sample.args_rgb_long
                    Sample.world0 _ Sample.world0 H)).
  vm_compute. reflexivity.
Defined.
